(** * fast-gan: the training loop of [train.py]

    A shallow embedding of [crop_image_by_part], [train_d], [train],
    [generate_images] and [do_gen_ai], together with the properties the
    specification states about them and further properties of the code.

    Conventions.
    - A 4-d image tensor [B x C x H x W] is a nested list, outermost
      dimension first; a flat (1-d) tensor is a list of numbers.
    - Tensor entries are exact rationals [Q]: rounding of the 32-bit
      floats that PyTorch computes with is not modelled.
    - Python integers are [Z]. *)

From Stdlib Require Import QArith Qabs Qminmax Qpower Lia Lqa.
From stdpp Require Import base option list strings pretty gmap.

Local Open Scope Q_scope.
Local Open Scope nat_scope.

(** ** Tensors *)

Module Tensor.

(** A 4-d tensor, indexed [t[b][c][i][j]]. *)
Abbreviation t4 A := (list (list (list (list A)))).

(** [image.shape[2]]: the height, read off the first plane. *)
Definition shape2 {A} (image : t4 A) : nat :=
  match image with
  | (plane :: _) :: _ => length plane
  | _ => 0
  end.

(** The tensor is rectangular with sizes [B, C, H, W]. *)
Definition has_shape {A} (image : t4 A) (s : nat * nat * nat * nat) : Prop :=
  let '(B, C, H, W) := s in
  length image = B ∧
  Forall (λ sample, length sample = C ∧
    Forall (λ plane, length plane = H ∧
      Forall (λ row : list A, length row = W) plane) sample) image.

(** All entries in row-major order ([image.flatten()]). *)
Definition pixels {A} (image : t4 A) : list A :=
  concat ((λ sample : list (list (list A)),
             concat ((λ plane : list (list A), concat plane) <$> sample))
          <$> image).

(** Entry-wise map. *)
Definition map4 {A B} (f : A → B) (image : t4 A) : t4 B :=
  (λ sample : list (list (list A)),
     (λ plane : list (list A),
        (λ row : list A, f <$> row) <$> plane) <$> sample) <$> image.

(** Every entry paired with its position [(b, c, i, j)]. *)
Definition label {A} (image : t4 A) : t4 ((nat * nat * nat * nat) * A) :=
  imap (λ b, imap (λ c, imap (λ i, imap (λ j x, ((b, c, i, j), x))))) image.

(** The four coordinates of a labelled entry. *)
Definition pos_b {A} (y : nat * nat * nat * nat * A) : nat := y.1.1.1.1.
Definition pos_c {A} (y : nat * nat * nat * nat * A) : nat := y.1.1.1.2.
Definition pos_i {A} (y : nat * nat * nat * nat * A) : nat := y.1.1.2.
Definition pos_j {A} (y : nat * nat * nat * nat * A) : nat := y.1.2.

(** [image[:, :, rows, cols]] where each of [rows], [cols] is a slice
    [:hw] ([take hw]) or [hw:] ([drop hw]). *)
Definition slice_hw {A} (rows : list (list A) → list (list A))
    (cols : list A → list A) (image : t4 A) : t4 A :=
  (λ sample : list (list (list A)),
     (λ plane : list (list A), cols <$> rows plane) <$> sample) <$> image.

End Tensor.

Import Tensor.

(** ** [crop_image_by_part] *)

(** [None] is Python's [None], returned when no [if] fires. *)
Definition crop_image_by_part {A} (image : t4 A) (part : Z) : option (t4 A) :=
  let hw := shape2 image / 2 in
  if (part =? 0)%Z then Some (slice_hw (take hw) (take hw) image)
  else if (part =? 1)%Z then Some (slice_hw (take hw) (drop hw) image)
  else if (part =? 2)%Z then Some (slice_hw (drop hw) (take hw) image)
  else if (part =? 3)%Z then Some (slice_hw (drop hw) (drop hw) image)
  else None.

(** ** Numbers and flat tensors *)

(** A flat tensor; its shape is its length. *)
Abbreviation tensor := (list Q).

(** [F.relu]. *)
Definition relu (x : Q) : Q := Qmax 0 x.

(** [t.sum()]. *)
Definition tsum (t : tensor) : Q := foldr Qplus 0%Q t.

(** [t.mean()]: the sum over the number of entries (PyTorch yields
    [nan] on an empty tensor, division by zero in [Q] yields [0]). *)
Definition tmean (t : tensor) : Q :=
  (tsum t / inject_Z (Z.of_nat (length t)))%Q.

(** ** Random sources

    The values handed to this file by the two generators it draws from,
    in the order of the calls: [torch]'s uniform and normal samplers and
    Python's [random].  Each draw reads the stream at the current
    position and advances it. *)

Record rng := {
  uniform_draws : nat → Q;  uniform_pos : nat;
  normal_draws : nat → Q;   normal_pos : nat;
  randint_draws : nat → Z;  randint_pos : nat;
}.

(** Every value of the uniform sampler lies in [[0, 1)]. *)
Definition uniform_range (g : rng) : Prop :=
  ∀ k, (0 <= uniform_draws g k)%Q ∧ (uniform_draws g k < 1)%Q.

(** [torch.rand_like(t)]: one fresh uniform draw per entry of [t]. *)
Definition rand_like (t : tensor) (g : rng) : tensor * rng :=
  (uniform_draws g <$> seq (uniform_pos g) (length t),
   {| uniform_draws := uniform_draws g;
      uniform_pos := uniform_pos g + length t;
      normal_draws := normal_draws g; normal_pos := normal_pos g;
      randint_draws := randint_draws g; randint_pos := randint_pos g |}).

(** [torch.Tensor(rows, cols).normal_(0, 1)]. *)
Definition normal_ (rows cols : nat) (g : rng) : list tensor * rng :=
  ((λ r, normal_draws g <$> seq (normal_pos g + r * cols) cols) <$> seq 0 rows,
   {| uniform_draws := uniform_draws g; uniform_pos := uniform_pos g;
      normal_draws := normal_draws g;
      normal_pos := normal_pos g + rows * cols;
      randint_draws := randint_draws g; randint_pos := randint_pos g |}).

(** [random.randint(a, b)]: an integer of [[a, b]], both ends included. *)
Definition randint (a b : Z) (g : rng) : Z * rng :=
  ((a + randint_draws g (randint_pos g) `mod` (b - a + 1))%Z,
   {| uniform_draws := uniform_draws g; uniform_pos := uniform_pos g;
      normal_draws := normal_draws g; normal_pos := normal_pos g;
      randint_draws := randint_draws g;
      randint_pos := S (randint_pos g) |}).

(** ** Networks, autograd and collaborators *)

(** One [backward()] call as it is seen by a network: the scalar that
    was back-propagated and whether its graph reaches the generator
    (it does when an input still carries the generator's history). *)
Record backward_call := {
  loss_value : Q;
  reaches_generator : bool;
}.

(** A network ([nn.Module]): named parameters, named buffers and the
    gradient accumulated in [.grad], kept as the list of [backward()]
    calls since the last [zero_grad()]. *)
Record module := {
  parameters : list (string * tensor);
  buffers : list (string * tensor);
  grad : list backward_call;
}.

(** [net.state_dict()]. *)
Definition state_dict (net : module) : list (string * tensor) :=
  parameters net ++ buffers net.

(** [net.zero_grad()]. *)
Definition zero_grad (net : module) : module :=
  {| parameters := parameters net; buffers := buffers net; grad := [] |}.

(** An image tensor together with its autograd flag. *)
Record var := {
  value : t4 Q;
  requires_grad : bool;
}.

(** [x.detach()]. *)
Definition detach (x : var) : var :=
  {| value := value x; requires_grad := false |}.

(** What [train_d] receives as [data]: one tensor or a list of tensors. *)
Inductive batch :=
  | Tensor4 (x : var)
  | TensorList (xs : list var).

Definition batch_requires_grad (data : batch) : bool :=
  match data with
  | Tensor4 x => requires_grad x
  | TensorList xs => existsb requires_grad xs
  end.

(** [err.backward()] for a loss computed by [net] on [data]. *)
Definition backward (err : Q) (data : batch) (net : module) : module :=
  {| parameters := parameters net; buffers := buffers net;
     grad := grad net ++
       [ {| loss_value := err;
            reaches_generator := batch_requires_grad data |} ] |}.

(** The modules this file imports and only calls ([models], [lpips],
    [diffaug], [torch.optim], the data loader).  [optimizer] is the whole
    state of an Adam instance. *)
Class Collaborators := {
  optimizer : Type;
  (** [net(data, "real", part=part)] *)
  netD_real : module → batch → Z → tensor * (t4 Q * t4 Q * t4 Q);
  (** [net(data, "fake")] *)
  netD_fake : module → batch → tensor;
  (** [netG(noise)] *)
  netG_forward : module → list tensor → list (t4 Q);
  (** [percept(a, b)] *)
  percept : t4 Q → t4 Q → tensor;
  (** [F.interpolate(x, size)] *)
  interpolate : t4 Q → nat → t4 Q;
  (** [DiffAugment(x, policy=policy)]; the number counts the calls made
      so far and stands for the randomness the augmentation draws. *)
  DiffAugment : t4 Q → string → nat → t4 Q;
  (** [optimizer.step()]: new optimizer state and new parameters. *)
  optim_step : optimizer → module → optimizer * list (string * tensor);
  (** [optimizer.load_state_dict(sd)]; [None] when it raises. *)
  optim_load_state_dict : optimizer → optimizer → option optimizer;
  (** [next(dataloader)], by the number of batches already drawn. *)
  next_batch : nat → t4 Q;
}.

(** ** Exceptions *)

Inductive exn :=
  | TypeError | KeyError | RuntimeError | ValueError | FileNotFoundError.

Inductive result (A : Type) :=
  | Ok (a : A)
  | Raise (e : exn).
Arguments Ok {A} a.
Arguments Raise {A} e.

(** ** [train_d] *)

(** What [train_d] returns: a 4-tuple on the real path, a number on the
    fake path. *)
Inductive train_d_result :=
  | RealResult (pred_mean : Q) (rec_all rec_small rec_part : t4 Q)
  | FakeResult (pred_mean : Q).

(** The randomised hinge terms as the code writes them. *)
Definition hinge_real (U pred : tensor) : Q :=
  tmean (relu <$> zip_with (λ u p, u * 0.2 + 0.8 - p)%Q U pred).

Definition hinge_fake (U pred : tensor) : Q :=
  tmean (relu <$> zip_with (λ u p, u * 0.2 + 0.8 + p)%Q U pred).

(** [train_d(args, net, data, percept, label)]: the network and the
    random sources are passed in and handed back. *)
Definition train_d `{Collaborators} (net : module) (data : batch)
    (label : string) (g : rng) : result (train_d_result * module * rng) :=
  if String.eqb label "real" then
    let '(part, g) := randint 0 3 g in
    let '(pred, (rec_all, rec_small, rec_part)) := netD_real net data part in
    let '(U, g) := rand_like pred g in
    match data with
    | Tensor4 x =>
        match crop_image_by_part (value x) part with
        | Some cropped =>
            let err :=
              (hinge_real U pred
               + tsum (percept rec_all (interpolate (value x) (shape2 rec_all)))
               + tsum (percept rec_small (interpolate (value x) (shape2 rec_small)))
               + tsum (percept rec_part (interpolate cropped (shape2 rec_part))))%Q in
            Ok (RealResult (tmean pred) rec_all rec_small rec_part,
                backward err data net, g)
        | None => Raise TypeError
        end
    | TensorList _ => Raise TypeError
    end
  else
    let pred := netD_fake net data in
    let '(U, g) := rand_like pred g in
    let err := hinge_fake U pred in
    Ok (FakeResult (tmean pred), backward err data net, g).

(** ** Tensor lists: EMA and parameter swapping *)

(** [avg_p.mul_(0.999).add_(0.001 * p.data)] on one pair of tensors.
    The in-place [add_] wants an operand of the same shape, or one it
    can broadcast (a single entry); otherwise it raises. *)
Definition ema_tensor (avg_p p : tensor) : result tensor :=
  if length p =? length avg_p then
    Ok (zip_with (λ a x, a * 0.999 + 0.001 * x)%Q avg_p p)
  else if length p =? 1 then
    Ok ((λ a, a * 0.999 + 0.001 * hd 0%Q p)%Q <$> avg_p)
  else Raise RuntimeError.

(** [for p, avg_p in zip(netG.parameters(), avg_param_G): ...]: [zip]
    stops at the shorter list, so shadow tensors without a partner stay
    as they are. *)
Fixpoint ema_update (params avg : list tensor) : result (list tensor) :=
  match params, avg with
  | p :: params', avg_p :: avg' =>
      match ema_tensor avg_p p with
      | Ok a =>
          match ema_update params' avg' with
          | Ok rest => Ok (a :: rest)
          | Raise e => Raise e
          end
      | Raise e => Raise e
      end
  | [], _ => Ok avg
  | _ :: _, [] => Ok []
  end.

(** [n] passes of the EMA loop in a row over the same parameters (the
    generator frozen). *)
Fixpoint ema_repeat (n : nat) (params avg : list tensor)
    : result (list tensor) :=
  match n with
  | O => Ok avg
  | S n' =>
      match ema_update params avg with
      | Ok avg' => ema_repeat n' params avg'
      | Raise e => Raise e
      end
  end.

(** Modelled from the spec: [copy_G_params] of module [operation], which
    is not part of the sources.  The EMA shadow is "initialized as an
    exact copy of the generator's parameters" (§3): the list of the
    parameter tensors, in order. *)
Definition copy_G_params (model : module) : list tensor :=
  snd <$> parameters model.

Fixpoint replace_paired (ps : list (string * tensor)) (new_param : list tensor)
    : list (string * tensor) :=
  match ps, new_param with
  | (name, _) :: ps', new_p :: new_param' =>
      (name, new_p) :: replace_paired ps' new_param'
  | _, _ => ps
  end.

(** Modelled from the spec: [load_params] of module [operation], which
    is not part of the sources.  The "live parameters are temporarily
    replaced by the shadow values" and later "restored to the pre-swap
    values" (§4.4): each parameter takes the value of the tensor it is
    paired with, in order, as in the EMA loop. *)
Definition load_params (model : module) (new_param : list tensor) : module :=
  {| parameters := replace_paired (parameters model) new_param;
     buffers := buffers model; grad := grad model |}.

(** ** Loading weights *)

(** [k.replace('module.', '')] for a pattern [pat]: every occurrence is
    removed, scanning from the left; [skip] counts the characters of a
    match still to drop. *)
Fixpoint remove_all (pat : string) (skip : nat) (k : string) : string :=
  match k with
  | EmptyString => EmptyString
  | String c k' =>
      match skip with
      | S n => remove_all pat n k'
      | O =>
          if String.prefix pat k
          then remove_all pat (String.length pat - 1) k'
          else String c (remove_all pat 0 k')
      end
  end.

(** [{k.replace('module.', ''): v for k, v in sd.items()}]: a later item
    overwrites an earlier one with the same new key. *)
Definition strip_module (sd : list (string * tensor)) : gmap string tensor :=
  foldl (λ m kv, <[remove_all "module." 0 kv.1 := kv.2]> m) ∅ sd.

(** One entry of the model against the loaded dict: kept when the key is
    missing, replaced when the shapes agree, [None] on a size mismatch. *)
Definition load_entry (sd : gmap string tensor) (entry : string * tensor)
    : option (string * tensor) :=
  match sd !! entry.1 with
  | None => Some entry
  | Some v => if length v =? length entry.2 then Some (entry.1, v) else None
  end.

(** The loaded dict has no tensor of another size for this entry. *)
Definition size_matches (sd : gmap string tensor) (entry : string * tensor)
    : Prop :=
  ∀ v, sd !! entry.1 = Some v → length v = length entry.2.

(** The value an entry has after loading: the loaded one when the key is
    present, its own otherwise. *)
Definition loaded_value (sd : gmap string tensor) (entry : string * tensor)
    : string * tensor :=
  (entry.1, default entry.2 (sd !! entry.1)).

(** [net.load_state_dict(sd, strict=False)] of PyTorch: missing and
    unexpected keys are ignored, a size mismatch raises. *)
Definition load_state_dict (net : module) (sd : gmap string tensor)
    : result module :=
  match mapM (load_entry sd) (parameters net),
        mapM (load_entry sd) (buffers net) with
  | Some ps, Some bs =>
      Ok {| parameters := ps; buffers := bs; grad := grad net |}
  | _, _ => Raise RuntimeError
  end.

(** ** The training state *)

(** The command-line arguments [train] reads, with the folder that
    [get_dir(args)] returns first. *)
Record args := {
  iter : Z;
  start_iter : Z;
  ckpt : option string;
  model_name : string;
  saved_model_folder : string;
}.

(** A value stored in a checkpoint file. *)
Inductive pickled `{Collaborators} :=
  | PStateDict (sd : list (string * tensor))
  | PTensors (ts : list tensor)
  | POptimizer (o : optimizer).

(** What the loop did, in order. *)
Inductive event :=
  | EvGeneratorForward
  | EvTrainD (label : string) (data : batch)
  | EvOptimizerDStep
  | EvGeneratorBackward
  | EvOptimizerGStep
  | EvEmaUpdate
  | EvPrint (iteration : Z) (loss_d loss_g : Q)
  | EvTorchSave (file : string) (iteration : Z).

(** The [torch.save] events. *)
Definition is_torch_save (e : event) : bool :=
  match e with
  | EvTorchSave _ _ => true
  | _ => false
  end.

Record train_state `{Collaborators} := {
  netG : module;
  netD : module;
  avg_param_G : list tensor;
  optimizerG : optimizer;
  optimizerD : optimizer;
  gen : rng;
  batches_drawn : nat;
  augment_calls : nat;
  files : gmap string (gmap string pickled);
  trace : list event;
}.

Section State.
Context `{Collaborators}.

Definition set_netG (v : module) (s : train_state) : train_state :=
  {| netG := v; netD := netD s; avg_param_G := avg_param_G s;
     optimizerG := optimizerG s; optimizerD := optimizerD s; gen := gen s;
     batches_drawn := batches_drawn s; augment_calls := augment_calls s;
     files := files s; trace := trace s |}.

Definition set_netD (v : module) (s : train_state) : train_state :=
  {| netG := netG s; netD := v; avg_param_G := avg_param_G s;
     optimizerG := optimizerG s; optimizerD := optimizerD s; gen := gen s;
     batches_drawn := batches_drawn s; augment_calls := augment_calls s;
     files := files s; trace := trace s |}.

Definition set_avg_param_G (v : list tensor) (s : train_state) : train_state :=
  {| netG := netG s; netD := netD s; avg_param_G := v;
     optimizerG := optimizerG s; optimizerD := optimizerD s; gen := gen s;
     batches_drawn := batches_drawn s; augment_calls := augment_calls s;
     files := files s; trace := trace s |}.

Definition set_optimizerG (v : optimizer) (s : train_state) : train_state :=
  {| netG := netG s; netD := netD s; avg_param_G := avg_param_G s;
     optimizerG := v; optimizerD := optimizerD s; gen := gen s;
     batches_drawn := batches_drawn s; augment_calls := augment_calls s;
     files := files s; trace := trace s |}.

Definition set_optimizerD (v : optimizer) (s : train_state) : train_state :=
  {| netG := netG s; netD := netD s; avg_param_G := avg_param_G s;
     optimizerG := optimizerG s; optimizerD := v; gen := gen s;
     batches_drawn := batches_drawn s; augment_calls := augment_calls s;
     files := files s; trace := trace s |}.

Definition set_gen (v : rng) (s : train_state) : train_state :=
  {| netG := netG s; netD := netD s; avg_param_G := avg_param_G s;
     optimizerG := optimizerG s; optimizerD := optimizerD s; gen := v;
     batches_drawn := batches_drawn s; augment_calls := augment_calls s;
     files := files s; trace := trace s |}.

Definition set_batches_drawn (v : nat) (s : train_state) : train_state :=
  {| netG := netG s; netD := netD s; avg_param_G := avg_param_G s;
     optimizerG := optimizerG s; optimizerD := optimizerD s; gen := gen s;
     batches_drawn := v; augment_calls := augment_calls s;
     files := files s; trace := trace s |}.

Definition set_augment_calls (v : nat) (s : train_state) : train_state :=
  {| netG := netG s; netD := netD s; avg_param_G := avg_param_G s;
     optimizerG := optimizerG s; optimizerD := optimizerD s; gen := gen s;
     batches_drawn := batches_drawn s; augment_calls := v;
     files := files s; trace := trace s |}.

Definition set_files (v : gmap string (gmap string pickled)) (s : train_state)
    : train_state :=
  {| netG := netG s; netD := netD s; avg_param_G := avg_param_G s;
     optimizerG := optimizerG s; optimizerD := optimizerD s; gen := gen s;
     batches_drawn := batches_drawn s; augment_calls := augment_calls s;
     files := v; trace := trace s |}.

Definition set_trace (v : list event) (s : train_state) : train_state :=
  {| netG := netG s; netD := netD s; avg_param_G := avg_param_G s;
     optimizerG := optimizerG s; optimizerD := optimizerD s; gen := gen s;
     batches_drawn := batches_drawn s; augment_calls := augment_calls s;
     files := files s; trace := v |}.

(** *** A state and exception monad over [train_state] *)

Definition M (A : Type) : Type := train_state → result (A * train_state).

Definition ret {A} (a : A) : M A := λ s, Ok (a, s).

Definition bind {A B} (m : M A) (k : A → M B) : M B :=
  λ s, match m s with
       | Ok (a, s') => k a s'
       | Raise e => Raise e
       end.

Definition raise {A} (e : exn) : M A := λ _, Raise e.

Definition read {A} (f : train_state → A) : M A := λ s, Ok (f s, s).

Definition modify (f : train_state → train_state) : M unit :=
  λ s, Ok (tt, f s).

Definition emit (e : event) : M unit :=
  modify (λ s, set_trace (trace s ++ [e]) s).

End State.

Notation "'let*' x ':=' m 'in' k" := (bind m (λ x, k))
  (at level 10, x pattern, m at level 100, k at level 200).
Notation "m ';;' k" := (bind m (λ _, k))
  (at level 100, k at level 200, right associativity).

(** ** [train] *)

Section Train.
Context `{Collaborators}.

Definition save_interval : Z := 1000.
Definition nz : nat := 256.
Definition policy : string := "color,translation".

(** [DiffAugment(x, policy=policy)]; differentiable, so the result keeps
    the autograd flag of [x]. *)
Definition augment (x : var) : M var :=
  let* n := read augment_calls in
  modify (set_augment_calls (S n));;
  ret {| value := DiffAugment (value x) policy n;
         requires_grad := requires_grad x |}.

Fixpoint augment_all (xs : list var) : M (list var) :=
  match xs with
  | [] => ret []
  | x :: xs' =>
      let* y := augment x in
      let* ys := augment_all xs' in
      ret (y :: ys)
  end.

(** What [augment_all] returns when [n] calls were made before. *)
Definition augmented (n : nat) (xs : list var) : list var :=
  imap (λ k x, {| value := DiffAugment (value x) policy (n + k);
                  requires_grad := requires_grad x |}) xs.

(** A call [train_d(args, netD, data, percept, label)] from the loop. *)
Definition call_train_d (data : batch) (label : string) : M train_d_result :=
  emit (EvTrainD label data);;
  let* net := read netD in
  let* g := read gen in
  match train_d net data label g with
  | Ok (r, net', g') =>
      modify (set_netD net');; modify (set_gen g');; ret r
  | Raise e => raise e
  end.

(** [optimizerD.step()] and [optimizerG.step()]. *)
Definition optimizerD_step : M unit :=
  emit EvOptimizerDStep;;
  let* opt := read optimizerD in
  let* net := read netD in
  let '(opt', ps) := optim_step opt net in
  modify (set_optimizerD opt');;
  modify (set_netD {| parameters := ps; buffers := buffers net;
                      grad := grad net |}).

Definition optimizerG_step : M unit :=
  emit EvOptimizerGStep;;
  let* opt := read optimizerG in
  let* net := read netG in
  let '(opt', ps) := optim_step opt net in
  modify (set_optimizerG opt');;
  modify (set_netG {| parameters := ps; buffers := buffers net;
                      grad := grad net |}).

(** Lines 155-156: the EMA loop. *)
Definition ema_step : M unit :=
  emit EvEmaUpdate;;
  let* net := read netG in
  let* avg := read avg_param_G in
  match ema_update (snd <$> parameters net) avg with
  | Ok avg' => modify (set_avg_param_G avg')
  | Raise e => raise e
  end.

(** Lines 162-165: swap the shadow in and back. *)
Definition swap_round_trip : M unit :=
  let* net := read netG in
  let backup_para := copy_G_params net in
  let* avg := read avg_param_G in
  modify (λ s, set_netG (load_params (netG s) avg) s);;
  modify (λ s, set_netG (load_params (netG s) backup_para) s).

(** [f'{saved_model_folder}/{args.model_name}']. *)
Definition checkpoint_file (a : args) : string :=
  saved_model_folder a +:+ "/" +:+ model_name a.

(** Lines 172-175: the dict handed to [torch.save], read off the
    current state. *)
Definition checkpoint_record (s : train_state) : gmap string pickled :=
  <["g" := PStateDict (state_dict (netG s))]>
  (<["d" := PStateDict (state_dict (netD s))]>
  (<["g_ema" := PTensors (avg_param_G s)]>
  (<["opt_g" := POptimizer (optimizerG s)]>
  (<["opt_d" := POptimizer (optimizerD s)]> ∅)))).

(** Lines 168-176: the body of the checkpoint branch.  The [torch.save]
    of line 170 is commented out in the source, so the only save comes
    after the parameters have been put back. *)
Definition save_checkpoint (a : args) (iteration : Z) : M unit :=
  let* net := read netG in
  let backup_para := copy_G_params net in
  let* avg := read avg_param_G in
  modify (λ s, set_netG (load_params (netG s) avg) s);;
  modify (λ s, set_netG (load_params (netG s) backup_para) s);;
  emit (EvTorchSave (checkpoint_file a) iteration);;
  modify (λ s,
    set_files (<[checkpoint_file a := checkpoint_record s]> (files s)) s).

(** Line 167: [iteration > 0 and (iteration % (save_interval*50) == 0 or
    iteration == total_iterations)]. *)
Definition checkpoint_due (a : args) (iteration : Z) : bool :=
  let total_iterations := iter a in
  (0 <? iteration)%Z &&
  ((iteration `mod` (save_interval * 50) =? 0)%Z
   || (iteration =? total_iterations)%Z).

(** Lines 130-176: one pass through the body of the [for] loop. *)
Definition train_iteration (a : args) (iteration : Z) : M unit :=
  let* n := read batches_drawn in
  modify (set_batches_drawn (S n));;
  let real_image := next_batch n in
  let current_batch_size := length real_image in
  let* g := read gen in
  let '(noise, g') := normal_ current_batch_size nz g in
  modify (set_gen g');;
  emit EvGeneratorForward;;
  let* net_g := read netG in
  let fake_images :=
    (λ x, {| value := x; requires_grad := true |}) <$> netG_forward net_g noise in
  let* real_image := augment {| value := real_image; requires_grad := false |} in
  let* fake_images := augment_all fake_images in
  (* 2. train Discriminator *)
  modify (λ s, set_netD (zero_grad (netD s)) s);;
  let* r := call_train_d (Tensor4 real_image) "real" in
  match r with
  | FakeResult _ => raise TypeError
  | RealResult err_dr rec_img_all rec_img_small rec_img_part =>
      call_train_d (TensorList (detach <$> fake_images)) "fake";;
      optimizerD_step;;
      (* 3. train Generator *)
      modify (λ s, set_netG (zero_grad (netG s)) s);;
      let* net_d := read netD in
      let pred_g := netD_fake net_d (TensorList fake_images) in
      let err_g := (- tmean pred_g)%Q in
      emit EvGeneratorBackward;;
      modify (λ s, set_netD (backward err_g (TensorList fake_images) (netD s)) s);;
      modify (λ s, set_netG (backward err_g (TensorList fake_images) (netG s)) s);;
      optimizerG_step;;
      ema_step;;
      (if (iteration `mod` save_interval =? 0)%Z
       then emit (EvPrint iteration err_dr (- err_g)%Q)
       else ret tt);;
      (if (iteration `mod` (save_interval * 10) =? 0)%Z
       then swap_round_trip
       else ret tt);;
      (if checkpoint_due a iteration
       then save_checkpoint a iteration
       else ret tt)
  end.

(** [range(lo, hi)]. *)
Definition range (lo hi : Z) : list Z :=
  (λ k, (lo + Z.of_nat k)%Z) <$> seq 0 (Z.to_nat (hi - lo)).

Fixpoint for_each {A} (xs : list A) (body : A → M unit) : M unit :=
  match xs with
  | [] => ret tt
  | x :: xs' => body x;; for_each xs' body
  end.

(** [ckpt[key]]. *)
Definition getitem (ck : gmap string pickled) (key : string) : M pickled :=
  match ck !! key with
  | Some v => ret v
  | None => raise KeyError
  end.

(** [net.load_state_dict({k.replace('module.', ''): v for k, v in
    ckpt[key].items()}, strict=False)]. *)
Definition load_weights (ck : gmap string pickled) (key : string)
    (net : module) : M module :=
  let* v := getitem ck key in
  match v with
  | PStateDict sd =>
      match load_state_dict net (strip_module sd) with
      | Ok net' => ret net'
      | Raise e => raise e
      end
  | _ => raise TypeError
  end.

(** [opt.load_state_dict(ckpt[key])]. *)
Definition load_optimizer (ck : gmap string pickled) (key : string)
    (opt : optimizer) : M optimizer :=
  let* v := getitem ck key in
  match v with
  | POptimizer sd =>
      match optim_load_state_dict opt sd with
      | Some opt' => ret opt'
      | None => raise ValueError
      end
  | _ => raise TypeError
  end.

(** Lines 115-123: resume from [checkpoint].  A checkpoint written by
    [save_checkpoint] holds a list of tensors under ['g_ema'] and
    optimizer states under ['opt_g'] and ['opt_d']; for a value of
    another kind the model raises here. *)
Definition load_checkpoint (checkpoint : string) : M unit :=
  let* fs := read files in
  match fs !! checkpoint with
  | None => raise FileNotFoundError
  | Some ck =>
      let* net_g := read netG in
      let* net_g' := load_weights ck "g" net_g in
      modify (set_netG net_g');;
      let* net_d := read netD in
      let* net_d' := load_weights ck "d" net_d in
      modify (set_netD net_d');;
      let* ema := getitem ck "g_ema" in
      match ema with
      | PTensors ts =>
          modify (set_avg_param_G ts);;
          let* opt_g := read optimizerG in
          let* opt_g' := load_optimizer ck "opt_g" opt_g in
          modify (set_optimizerG opt_g');;
          let* opt_d := read optimizerD in
          let* opt_d' := load_optimizer ck "opt_d" opt_d in
          modify (set_optimizerD opt_d')
      | _ => raise TypeError
      end
  end.

(** [train(args)], started in a state that holds the freshly built
    networks and optimizers (lines 101-113 before line 110). *)
Definition train (a : args) : M unit :=
  let total_iterations := iter a in
  let current_iteration := start_iter a in
  let* net_g := read netG in
  modify (set_avg_param_G (copy_G_params net_g));;
  match ckpt a with
  | Some checkpoint => load_checkpoint checkpoint
  | None => ret tt
  end;;
  for_each (range current_iteration (total_iterations + 1))
           (train_iteration a).

End Train.

(** ** [generate_images] and [do_gen_ai] *)

(** One sample of a batch, [C x H x W]. *)
Abbreviation image3 := (list (list (list Q))).

(** What [generate_images] can raise: the exceptions of the checkpoint
    load, and the [IndexError] of [netG(fixed_noise)[0]] on an empty
    list. *)
Inductive gen_exn :=
  | Raised (e : exn)
  | IndexError.

Inductive gen_result (A : Type) :=
  | Returns (a : A)
  | Raises (e : gen_exn).
Arguments Returns {A} a.
Arguments Raises {A} e.

(** The keys that make a strict [load_state_dict] fail: those of the
    model that the loaded dict lacks, and those of the loaded dict that
    the model does not have. *)
Definition missing_keys (net : module) (sd : gmap string tensor) : list string :=
  filter (λ k, k ∉ dom sd) (state_dict net).*1.

Definition unexpected_keys (net : module) (sd : gmap string tensor)
    : list string :=
  filter (λ k, k ∉ (state_dict net).*1) (elements (dom sd)).

(** [net.load_state_dict(sd)] with PyTorch's default [strict=True]: a
    missing key, an unexpected key or a size mismatch raises. *)
Definition load_state_dict_strict (net : module) (sd : gmap string tensor)
    : result module :=
  match missing_keys net sd, unexpected_keys net sd with
  | [], [] => load_state_dict net sd
  | _, _ => Raise RuntimeError
  end.

(** [str(iter)]: the name [iter] is bound neither in [generate_images]
    nor in the module, so the f-string of line 207 formats Python's
    builtin function. *)
Definition str_iter : string := "<built-in function iter>".

(** [f'{images_path}/image_{iter}_{i}.jpg']. *)
Definition image_file (images_path : string) (i : nat) : string :=
  images_path +:+ "/image_" +:+ str_iter +:+ "_" +:+ pretty i +:+ ".jpg".



Section Generate.
Context `{Collaborators}.

(** [net.load_state_dict({k.replace('module.', ''): v for k, v in
    ckpt[key].items()})], strict. *)
Definition load_weights_strict (ck : gmap string pickled) (key : string)
    (net : module) : result module :=
  match ck !! key with
  | None => Raise KeyError
  | Some (PStateDict sd) => load_state_dict_strict net (strip_module sd)
  | Some _ => Raise TypeError
  end.

(** [generate_images(args, images_path)].  [netG0] and [netD0] are the
    networks built and initialised at lines 183-187, [fs] the checkpoint
    files on disk and [g] the random sources, as in [train].  The result
    lists the calls [save_image(val, path)] in order, as pairs of the
    path and the tensor handed over.  Moving networks and noise to the
    device changes no value, and the assignment to [args.ckpt] is not
    read again. *)
Definition generate_images (a : args) (images_path : string)
    (netG0 netD0 : module) (fs : gmap string (gmap string pickled)) (g : rng)
    : gen_result (list (string * image3) * rng) :=
  let model_path := saved_model_folder a in
  let ckpt := model_path +:+ "/" +:+ model_name a in
  match fs !! ckpt with
  | None => Raises (Raised FileNotFoundError)
  | Some ck =>
      match load_weights_strict ck "g" netG0 with
      | Raise e => Raises (Raised e)
      | Ok net_g =>
          match load_weights_strict ck "d" netD0 with
          | Raise e => Raises (Raised e)
          | Ok net_d =>
              let '(fixed_noise, g') := normal_ 25 nz g in
              match netG_forward net_g fixed_noise with
              | [] => Raises IndexError
              | big :: _ =>
                  Returns
                    (imap (λ i val, (image_file images_path i, val))
                          (map4 (λ x, (x + 1) * 0.5)%Q big),
                     g')
              end
          end
      end
  end.


End Generate.

(** The progress lines of line 160. *)
Definition is_print (e : event) : bool :=
  match e with
  | EvPrint _ _ _ => true
  | _ => false
  end.

(** Two networks of one architecture: the same names in the same order,
    with tensors of the same size. *)
Definition same_layout (net0 net : module) : Prop :=
  Forall2 (λ e0 e : string * tensor, e0.1 = e.1 ∧ length e0.2 = length e.2)
          (parameters net0) (parameters net) ∧
  Forall2 (λ e0 e : string * tensor, e0.1 = e.1 ∧ length e0.2 = length e.2)
          (buffers net0) (buffers net).

(** The names under which a network's weights can be stored and found
    again: no name twice, and none that ['module.'] occurs in. *)
Definition plain_names (net : module) : Prop :=
  NoDup (state_dict net).*1 ∧
  Forall (λ k, remove_all "module." 0 k = k) (state_dict net).*1.

(** ** A small concrete instance

    One-pixel-wide networks on which the definitions above can be run. *)

Module Toy.

Definition image : t4 Q := [[ [[1; 2]; [3; 4]] ]]%Q.
Definition small : t4 Q := [[ [[1]] ]]%Q.

(** The optimizer state is a step count and one moment tensor per
    parameter, all in one parameter group.  Loading a state compares the
    number of tensors and nothing else, as [load_state_dict] of
    [torch.optim.Optimizer] compares the number of parameter groups and
    the number of parameters of each group, raises [ValueError] when
    they differ, and then takes the state tensors as they are. *)
#[export] Instance collaborators : Collaborators := {|
  optimizer := nat * list tensor;
  netD_real := λ _ _ _, ([1 # 2], (image, small, small))%Q;
  netD_fake := λ _ _, [1 # 4]%Q;
  netG_forward := λ _ _, [image; small];
  percept := λ a b, [inject_Z (Z.of_nat (length (pixels a)))];
  interpolate := λ x _, x;
  DiffAugment := λ x _ _, x;
  optim_step := λ opt net,
    ((S opt.1, opt.2),
     (λ kv : string * tensor, (kv.1, Qplus 1 <$> kv.2)) <$> parameters net);
  optim_load_state_dict := λ cur sd,
    if length sd.2 =? length cur.2 then Some sd else None;
  next_batch := λ _, image;
|}.

Definition generator : module :=
  {| parameters := [("w", [1; 2]%Q)]; buffers := []; grad := [] |}.

Definition discriminator : module :=
  {| parameters := [("w", [3]%Q)]; buffers := []; grad := [] |}.

Definition random : rng :=
  {| uniform_draws := λ _, (1 # 2)%Q; uniform_pos := 0;
     normal_draws := λ _, 0%Q; normal_pos := 0;
     randint_draws := λ k, Z.of_nat k; randint_pos := 0 |}.

Definition state : train_state :=
  {| netG := generator; netD := discriminator;
     avg_param_G := [[0; 0]%Q];
     optimizerG := (0, [[0; 0]%Q]); optimizerD := (0, [[0]%Q]);
     gen := random; batches_drawn := 0; augment_calls := 0;
     files := ∅; trace := [] |}.

Definition arguments (total : Z) : args :=
  {| iter := total; start_iter := 0; ckpt := None;
     model_name := "toy_model.pth"; saved_model_folder := "models" |}.

(** A checkpoint whose EMA shadow and whose generator optimizer moment
    have three entries where the generator's parameter has two. *)
Definition mismatched : gmap string pickled :=
  <["g" := PStateDict [("module.w", [5; 6]%Q)]]>
  (<["d" := PStateDict [("w", [7]%Q)]]>
  (<["g_ema" := PTensors [[9; 9; 9]%Q]]>
  (<["opt_g" := POptimizer (3, [[0; 0; 0]%Q])]>
  (<["opt_d" := POptimizer (3, [[0]%Q])]> ∅)))).

Definition resumed : train_state :=
  set_files (<["models/old.pth" := mismatched]> ∅) state.

End Toy.

(** * Properties *)

(** ** The quadrant crops *)

Section Crop.
Context {A : Type}.
Implicit Types (rows : list (list A)) (image : t4 A).

Lemma concat_take_drop n rows :
  concat (take n <$> rows) ++ concat (drop n <$> rows) ≡ₚ concat rows.
Proof.
  induction rows as [|row rows IH]; [done|]. cbn [fmap list_fmap concat].
  rewrite <-(take_drop n row) at 3. rewrite <-IH.
  rewrite <-!(assoc_L (++)). f_equiv.
  rewrite !(assoc_L (++)). f_equiv. apply Permutation_app_comm.
Qed.

Lemma quadrants_plane hw rows :
  concat (take hw <$> take hw rows) ++ concat (drop hw <$> take hw rows) ++
  concat (take hw <$> drop hw rows) ++ concat (drop hw <$> drop hw rows)
  ≡ₚ concat rows.
Proof.
  rewrite (assoc_L (++)), !concat_take_drop, <-concat_app.
  by rewrite take_drop.
Qed.
End Crop.

Lemma concat4_fmap {X Y} (f0 f1 f2 f3 g : X → list Y) (l : list X) :
  (∀ x, f0 x ++ f1 x ++ f2 x ++ f3 x ≡ₚ g x) →
  concat (f0 <$> l) ++ concat (f1 <$> l) ++ concat (f2 <$> l) ++ concat (f3 <$> l)
  ≡ₚ concat (g <$> l).
Proof.
  intros Hx. induction l as [|x l IH]; [done|]. cbn [fmap list_fmap concat].
  rewrite <-IH, <-Hx. solve_Permutation.
Qed.

Lemma pixels_slice_hw {A} (r : list (list A) → list (list A)) (c : list A → list A)
    (image : t4 A) :
  pixels (slice_hw r c image) =
  concat ((λ sample : list (list (list A)),
     concat ((λ plane : list (list A), concat (c <$> r plane)) <$> sample)) <$> image).
Proof.
  unfold pixels, slice_hw. rewrite <-list_fmap_compose. f_equal.
  apply list_fmap_ext. intros _ sample _. cbn.
  by rewrite <-list_fmap_compose.
Qed.

Lemma quadrants_pixels {A} (hw : nat) (image : t4 A) :
  pixels (slice_hw (take hw) (take hw) image) ++
  pixels (slice_hw (take hw) (drop hw) image) ++
  pixels (slice_hw (drop hw) (take hw) image) ++
  pixels (slice_hw (drop hw) (drop hw) image) ≡ₚ pixels image.
Proof.
  rewrite !pixels_slice_hw. apply concat4_fmap. intros sample.
  apply concat4_fmap. intros plane. apply quadrants_plane.
Qed.

(** Positions are pairwise distinct in a labelled image. *)
Lemma elem_of_concat_imap {X Y} (f : nat → X → list Y) (l : list X) y :
  y ∈ concat (imap f l) → ∃ k x, l !! k = Some x ∧ y ∈ f k x.
Proof.
  rewrite list_elem_of_In, in_concat. intros (ys & Hys & Hy).
  apply list_elem_of_In, elem_of_lookup_imap in Hys as (k & x & -> & Hk).
  exists k, x. by rewrite list_elem_of_In.
Qed.

Lemma NoDup_concat_imap {X Y} (key : Y → nat) (f : nat → X → list Y) (l : list X) n :
  (∀ k x, NoDup (f k x)) →
  (∀ k x y, y ∈ f k x → key y = n + k) →
  NoDup (concat (imap f l)).
Proof.
  revert f n. induction l as [|x l IH]; intros f n Hnd Hkey; [constructor|].
  cbn [imap concat]. apply NoDup_app. split_and!.
  - apply Hnd.
  - intros y Hy Hy'. apply elem_of_concat_imap in Hy' as (k & x' & _ & Hy').
    apply Hkey in Hy. apply (Hkey (S k)) in Hy'. lia.
  - apply (IH _ (S n)); [intros; apply Hnd|].
    intros k x' y Hy. apply (Hkey (S k)) in Hy. lia.
Qed.

Lemma NoDup_imap_key {X Y} (key : Y → nat) (g : nat → X → Y) (l : list X) :
  (∀ k x, key (g k x) = k) → NoDup (imap g l).
Proof.
  intros Hkey. apply (NoDup_fmap_1 key).
  rewrite fmap_imap.
  rewrite (imap_ext _ (λ j _, id j)); [|intros; apply Hkey].
  rewrite (imap_seq_0 l id), list_fmap_id. apply NoDup_seq.
Qed.

Lemma pixels_label {A} (image : t4 A) :
  pixels (label image) =
  concat (imap (λ b (sample : list (list (list A))),
    concat (imap (λ c (plane : list (list A)),
      concat (imap (λ i (row : list A),
        imap (λ j x, ((b, c, i, j), x)) row) plane)) sample)) image).
Proof.
  unfold pixels, label. rewrite fmap_imap. f_equal. apply imap_ext.
  intros b sample _. cbn. rewrite fmap_imap. done.
Qed.

Lemma NoDup_pixels_label {A} (image : t4 A) : NoDup (pixels (label image)).
Proof.
  rewrite pixels_label.
  apply (NoDup_concat_imap pos_b _ _ 0).
  - intros b sample. apply (NoDup_concat_imap pos_c _ _ 0).
    + intros c plane. apply (NoDup_concat_imap pos_i _ _ 0).
      * intros i row. by apply (NoDup_imap_key pos_j).
      * intros i row y (j & x & -> & _)%elem_of_lookup_imap. done.
    + intros c plane y (i & row & _ & (j & x & -> & _)%elem_of_lookup_imap)%elem_of_concat_imap.
      done.
  - intros b sample y (c & plane & _ & (i & row & _ & (j & x & -> & _)%elem_of_lookup_imap)%elem_of_concat_imap)%elem_of_concat_imap.
    done.
Qed.

Lemma imap_snd_id {X} (l : list X) : imap (λ _ x, x) l = l.
Proof. by rewrite (imap_const id), list_fmap_id. Qed.

Lemma map4_snd_label {A} (image : t4 A) : map4 snd (label image) = image.
Proof.
  unfold map4, label. rewrite fmap_imap.
  rewrite <-(imap_snd_id image) at 2. apply imap_ext. intros b sample _. cbn.
  rewrite fmap_imap. rewrite <-(imap_snd_id sample) at 2.
  apply imap_ext. intros c plane _. cbn.
  rewrite fmap_imap. rewrite <-(imap_snd_id plane) at 2.
  apply imap_ext. intros i row _. cbn.
  rewrite fmap_imap. rewrite <-(imap_snd_id row) at 2.
  by apply imap_ext.
Qed.

Lemma shape2_label {A} (image : t4 A) : shape2 (label image) = shape2 image.
Proof.
  destruct image as [|[|plane sample] image]; [done..|]. cbn. apply length_imap.
Qed.

Lemma has_shape_label {A} (image : t4 A) s :
  has_shape image s → has_shape (label image) s.
Proof.
  destruct s as [[[B C] H] W]. unfold has_shape, label.
  rewrite length_imap. intros [HB Himg]. split; [done|].
  apply Forall_lookup_2. intros b ? Hb.
  rewrite list_lookup_imap in Hb.
  destruct (image !! b) as [sample|] eqn:Hs; simplify_eq/=.
  destruct (Forall_lookup_1 _ _ _ _ Himg Hs) as [HC Hsample].
  rewrite length_imap. split; [done|].
  apply Forall_lookup_2. intros c ? Hc.
  rewrite list_lookup_imap in Hc.
  destruct (sample !! c) as [plane|] eqn:Hp; simplify_eq/=.
  destruct (Forall_lookup_1 _ _ _ _ Hsample Hp) as [HH Hplane].
  rewrite length_imap. split; [done|].
  apply Forall_lookup_2. intros i ? Hi.
  rewrite list_lookup_imap in Hi.
  destruct (plane !! i) as [row|] eqn:Hr; simplify_eq/=.
  rewrite length_imap. apply (Forall_lookup_1 _ _ _ _ Hplane Hr).
Qed.

Lemma map4_slice_hw {A B} (f : A → B) rA rB cA cB (image : t4 A) :
  (∀ plane : list (list A), (λ row : list A, f <$> row) <$> rA plane
                            = rB ((λ row : list A, f <$> row) <$> plane)) →
  (∀ row : list A, f <$> cA row = cB (f <$> row)) →
  map4 f (slice_hw rA cA image) = slice_hw rB cB (map4 f image).
Proof.
  intros Hr Hc. unfold map4, slice_hw.
  rewrite <-!list_fmap_compose. apply list_fmap_ext. intros _ sample _. cbn.
  rewrite <-!list_fmap_compose. apply list_fmap_ext. intros _ plane _. cbn.
  rewrite <-Hr, <-!list_fmap_compose. apply list_fmap_ext. intros _ row _. cbn.
  apply Hc.
Qed.

Lemma shape2_has_shape {A} (image : t4 A) B C H W :
  has_shape image (B, C, H, W) → B ≠ 0 → C ≠ 0 → shape2 image = H.
Proof.
  intros [HB Himg] ??. destruct image as [|sample image]; [done|].
  apply Forall_cons in Himg as [[HC Hs] _].
  destruct sample as [|plane sample]; [done|].
  apply Forall_cons in Hs as [[HH _] _]. done.
Qed.

Lemma has_shape_slice_hw {A} r c (image : t4 A) B C H W H' W' :
  has_shape image (B, C, H, W) →
  (B ≠ 0 → C ≠ 0 →
    (∀ plane : list (list A), length plane = H → length (r plane) = H') ∧
    (∀ (P : list A → Prop) plane, Forall P plane → Forall P (r plane)) ∧
    (∀ row : list A, length row = W → length (c row) = W')) →
  has_shape (slice_hw r c image) (B, C, H', W').
Proof.
  intros [HB Himg] Hrc. unfold has_shape, slice_hw.
  rewrite length_fmap. split; [done|].
  apply Forall_fmap. rewrite Forall_forall in Himg |- *.
  intros sample Hsin. destruct (Himg _ Hsin) as [HC Hsample].
  cbn. rewrite length_fmap. split; [done|].
  apply Forall_fmap. rewrite Forall_forall in Hsample |- *.
  intros plane Hin. destruct (Hsample _ Hin) as [HH Hplane]. cbn.
  assert (B ≠ 0) as HB0.
  { intros ->. destruct image; [inversion Hsin|done]. }
  assert (C ≠ 0) as HC0.
  { destruct sample; [inversion Hin | simpl in HC; lia]. }
  destruct (Hrc HB0 HC0) as (Hlen & Hall & Hcol).
  rewrite length_fmap. split; [by apply Hlen|].
  apply Forall_fmap, Hall. eapply Forall_impl; [exact Hplane|].
  intros row. apply Hcol.
Qed.

Lemma quadrant_has_shape {A} (image : t4 A) B C H (top left : bool) :
  has_shape image (B, C, H, H) → Nat.even H = true →
  has_shape (slice_hw (if top then take (shape2 image / 2) else drop (shape2 image / 2))
                      (if left then take (shape2 image / 2) else drop (shape2 image / 2))
                      image) (B, C, H / 2, H / 2).
Proof.
  intros Hs He. eapply has_shape_slice_hw; [exact Hs|]. intros HB HC.
  rewrite (shape2_has_shape _ _ _ _ _ Hs HB HC).
  apply Nat.even_spec in He as [k ->].
  replace (2 * k / 2) with k by (rewrite Nat.mul_comm, Nat.div_mul; lia).
  split_and!.
  - intros plane Hl. destruct top; [rewrite length_take|rewrite length_drop]; lia.
  - intros P plane HP. destruct top; [by apply Forall_take|by apply Forall_drop].
  - intros row Hl. destruct left; [rewrite length_take|rewrite length_drop]; lia.
Qed.

Lemma crop_map4 {A B} (f : A → B) (image : t4 A) part :
  crop_image_by_part (map4 f image) part = map4 f <$> crop_image_by_part image part.
Proof.
  assert (shape2 (map4 f image) = shape2 image) as Hsh.
  { destruct image as [|[|plane sample] image]; [done..|]. cbn. apply length_fmap. }
  unfold crop_image_by_part. rewrite Hsh.
  repeat case_match; cbn; try done; f_equal; symmetry; apply map4_slice_hw;
    intros; by rewrite ?fmap_take, ?fmap_drop.
Qed.

(** C9.  For an image whose height and width are equal and even, the
    four crops of [crop_image_by_part] (parts 0 to 3) are quadrants of
    half the side each, pairwise disjoint, and together they cover every
    pixel exactly once.  The crops are taken of the image whose entries
    carry their position [(b, c, i, j)]: no position occurs twice in the
    four crops ([NoDup]), and the crops hold exactly the positions of
    the image ([≡ₚ]); the crops of the image itself are those crops
    with the positions erased. *)
Theorem crop_quadrants_partition {A} (image : t4 A) (B C H W : nat) :
  has_shape image (B, C, H, W) → H = W → Nat.even H = true →
  ∃ q0 q1 q2 q3 : t4 (nat * nat * nat * nat * A),
    (crop_image_by_part (label image) 0 = Some q0 ∧
     crop_image_by_part (label image) 1 = Some q1 ∧
     crop_image_by_part (label image) 2 = Some q2 ∧
     crop_image_by_part (label image) 3 = Some q3) ∧
    (crop_image_by_part image 0 = Some (map4 snd q0) ∧
     crop_image_by_part image 1 = Some (map4 snd q1) ∧
     crop_image_by_part image 2 = Some (map4 snd q2) ∧
     crop_image_by_part image 3 = Some (map4 snd q3)) ∧
    (has_shape q0 (B, C, H / 2, W / 2) ∧ has_shape q1 (B, C, H / 2, W / 2) ∧
     has_shape q2 (B, C, H / 2, W / 2) ∧ has_shape q3 (B, C, H / 2, W / 2)) ∧
    NoDup (pixels q0 ++ pixels q1 ++ pixels q2 ++ pixels q3) ∧
    pixels q0 ++ pixels q1 ++ pixels q2 ++ pixels q3 ≡ₚ pixels (label image).
Proof.
  intros Hs <- He. apply has_shape_label in Hs.
  set (hw := shape2 (label image) / 2).
  exists (slice_hw (take hw) (take hw) (label image)),
         (slice_hw (take hw) (drop hw) (label image)),
         (slice_hw (drop hw) (take hw) (label image)),
         (slice_hw (drop hw) (drop hw) (label image)).
  split; [done|]. split.
  { rewrite <-(map4_snd_label image) at 1 3 5 7. rewrite !crop_map4. done. }
  split.
  { split_and!.
    - apply (quadrant_has_shape _ _ _ _ true true Hs He).
    - apply (quadrant_has_shape _ _ _ _ true false Hs He).
    - apply (quadrant_has_shape _ _ _ _ false true Hs He).
    - apply (quadrant_has_shape _ _ _ _ false false Hs He). }
  pose proof (quadrants_pixels hw (label image)) as Hperm.
  split; [|done]. rewrite Hperm. apply NoDup_pixels_label.
Qed.

Lemma crop_quadrants_partition_witness :
  ∃ q0 q1 q2 q3 : t4 (nat * nat * nat * nat * Q),
    (crop_image_by_part (label Toy.image) 0 = Some q0 ∧
     crop_image_by_part (label Toy.image) 1 = Some q1 ∧
     crop_image_by_part (label Toy.image) 2 = Some q2 ∧
     crop_image_by_part (label Toy.image) 3 = Some q3) ∧
    (crop_image_by_part Toy.image 0 = Some (map4 snd q0) ∧
     crop_image_by_part Toy.image 1 = Some (map4 snd q1) ∧
     crop_image_by_part Toy.image 2 = Some (map4 snd q2) ∧
     crop_image_by_part Toy.image 3 = Some (map4 snd q3)) ∧
    (has_shape q0 (1, 1, 2 / 2, 2 / 2) ∧ has_shape q1 (1, 1, 2 / 2, 2 / 2) ∧
     has_shape q2 (1, 1, 2 / 2, 2 / 2) ∧ has_shape q3 (1, 1, 2 / 2, 2 / 2)) ∧
    NoDup (pixels q0 ++ pixels q1 ++ pixels q2 ++ pixels q3) ∧
    pixels q0 ++ pixels q1 ++ pixels q2 ++ pixels q3 ≡ₚ pixels (label Toy.image).
Proof.
  apply (crop_quadrants_partition Toy.image 1 1 2 2).
  - repeat constructor.
  - reflexivity.
  - reflexivity.
Defined.

Example crop_part1 :
  crop_image_by_part Toy.image 1 = Some [[ [[2%Q]] ]].
Proof. reflexivity. Qed.

Example crop_part2 :
  crop_image_by_part Toy.image 2 = Some [[ [[3%Q]] ]].
Proof. reflexivity. Qed.

Example crop_part7 : crop_image_by_part Toy.image 7 = None.
Proof. reflexivity. Qed.

Example crop_odd_height :
  crop_image_by_part [[ [[1; 2; 3]; [4; 5; 6]; [7; 8; 9]] ]]%Z 3
  = Some [[ [[5; 6]; [8; 9]] ]]%Z.
Proof. reflexivity. Qed.

(** ** [train_d] *)

Lemma crop_is_Some {A} (image : t4 A) (part : Z) :
  is_Some (crop_image_by_part image part) ↔ (0 ≤ part ≤ 3)%Z.
Proof.
  unfold crop_image_by_part. split.
  - intros [q Hq]. repeat case_match; simplify_eq; lia.
  - intros Hp.
    assert (part = 0 ∨ part = 1 ∨ part = 2 ∨ part = 3)%Z
      as [-> | [-> | [-> | ->]]] by lia; cbn; eauto.
Qed.

Lemma randint_range (a b : Z) (g : rng) :
  (a ≤ b)%Z → (a ≤ (randint a b g).1 ≤ b)%Z.
Proof.
  intros Hab. unfold randint. cbn.
  pose proof (Z.mod_pos_bound (randint_draws g (randint_pos g)) (b - a + 1)).
  lia.
Qed.

Lemma tsum_Qeq (t t' : tensor) : Forall2 Qeq t t' → tsum t == tsum t'.
Proof.
  induction 1 as [|x y t t' Hxy _ IH]; cbn; [reflexivity|].
  by rewrite Hxy, IH.
Qed.

Lemma tmean_Qeq (t t' : tensor) : Forall2 Qeq t t' → tmean t == tmean t'.
Proof.
  intros Ht. unfold tmean.
  rewrite (tsum_Qeq _ _ Ht), (Forall2_length _ _ _ Ht). reflexivity.
Qed.

Lemma hinge_Qeq (f f' : Q → Q → Q) (U pred : tensor) :
  (∀ u p, f u p == f' u p) →
  tmean (relu <$> zip_with f U pred) == tmean (relu <$> zip_with f' U pred).
Proof.
  intros Hf. apply tmean_Qeq. apply Forall2_fmap.
  revert pred. induction U as [|u U IH]; intros [|p pred]; cbn; try constructor.
  - unfold relu. by rewrite Hf.
  - apply IH.
Qed.

Lemma rand_like_range (g : rng) (t : tensor) :
  uniform_range g →
  Forall (λ u, (0 <= u)%Q ∧ (u < 1)%Q) (rand_like t g).1.
Proof.
  intros Hg. cbn. apply Forall_fmap, Forall_forall. intros k _. apply Hg.
Qed.

Section TrainD.
Context `{Collaborators}.

(** C1.  On a real batch [train_d] draws the quadrant index in
    [{0,..,3}], draws a fresh uniform tensor [U] of [pred]'s shape with
    entries in [[0,1)], back-propagates
    [mean (relu (0.8 + 0.2*U - pred))] plus the three perceptual sums
    (reconstruction against the input resized to the reconstruction's
    size, the part reconstruction against the cropped quadrant), and
    returns the mean prediction and the three reconstructions.  The
    quadrant is the one the index selects: rows above the middle for
    indices 0 and 1 and from the middle on for 2 and 3, columns left of
    the middle for 0 and 2 and from the middle on for 1 and 3.  The
    network's parameters and buffers are left as they were: only its
    gradient grows by that one [backward()] call. *)
Theorem train_d_real (net : module) (x : var) (g : rng)
    (pred : tensor) (rec_all rec_small rec_part : t4 Q) :
  uniform_range g →
  netD_real net (Tensor4 x) (randint 0 3 g).1
    = (pred, (rec_all, rec_small, rec_part)) →
  let part := (randint 0 3 g).1 in
  let U := uniform_draws g <$> seq (uniform_pos g) (length pred) in
  ∃ (cropped : t4 Q) (err : Q) (net' : module) (g' : rng),
    train_d net (Tensor4 x) "real" g
      = Ok (RealResult (tmean pred) rec_all rec_small rec_part, net', g') ∧
    (0 ≤ part ≤ 3)%Z ∧
    crop_image_by_part (value x) part = Some cropped ∧
    cropped =
      slice_hw (if (part <? 2)%Z then take (shape2 (value x) / 2)
                else drop (shape2 (value x) / 2))
               (if Z.even part then take (shape2 (value x) / 2)
                else drop (shape2 (value x) / 2))
               (value x) ∧
    length U = length pred ∧
    Forall (λ u, (0 <= u)%Q ∧ (u < 1)%Q) U ∧
    (err == tmean (relu <$> zip_with (λ u p, 0.8 + 0.2 * u - p) U pred)
            + (tsum (percept rec_all (interpolate (value x) (shape2 rec_all)))
               + tsum (percept rec_small (interpolate (value x) (shape2 rec_small)))
               + tsum (percept rec_part (interpolate cropped (shape2 rec_part)))))%Q ∧
    grad net' = grad net ++
      [ {| loss_value := err; reaches_generator := requires_grad x |} ] ∧
    parameters net' = parameters net ∧
    buffers net' = buffers net ∧
    uniform_draws g' = uniform_draws g ∧
    uniform_pos g' = uniform_pos g + length pred.
Proof.
  intros Hg Hnet part U.
  pose proof (randint_range 0 3 g ltac:(lia)) as Hpart. fold part in Hpart.
  destruct (proj2 (crop_is_Some (value x) part) Hpart) as [cropped Hcrop].
  exists cropped,
    (hinge_real U pred
     + tsum (percept rec_all (interpolate (value x) (shape2 rec_all)))
     + tsum (percept rec_small (interpolate (value x) (shape2 rec_small)))
     + tsum (percept rec_part (interpolate cropped (shape2 rec_part))))%Q.
  eexists _, _. split.
  { unfold train_d. cbn [String.eqb Ascii.eqb Bool.eqb].
    destruct (randint 0 3 g) as [part' g1] eqn:Hr.
    cbn in Hnet. rewrite Hnet.
    destruct (rand_like pred g1) as [U' g2] eqn:HU.
    subst part. cbn in Hcrop. rewrite Hcrop.
    unfold randint in Hr. unfold rand_like in HU. simplify_eq/=.
    reflexivity. }
  split_and!; try done; try lia.
  - unfold crop_image_by_part in Hcrop.
    destruct (Z.eqb_spec part 0) as [Hp|?]; [rewrite Hp in *; by injection Hcrop|].
    destruct (Z.eqb_spec part 1) as [Hp|?]; [rewrite Hp in *; by injection Hcrop|].
    destruct (Z.eqb_spec part 2) as [Hp|?]; [rewrite Hp in *; by injection Hcrop|].
    destruct (Z.eqb_spec part 3) as [Hp|?]; [rewrite Hp in *; by injection Hcrop|].
    done.
  - subst U. by rewrite length_fmap, length_seq.
  - apply (rand_like_range g pred Hg).
  - unfold hinge_real.
    assert (tmean (relu <$> zip_with (λ u p, u * 0.2 + 0.8 - p)%Q U pred)
            == tmean (relu <$> zip_with (λ u p, 0.8 + 0.2 * u - p)%Q U pred)) as Hh
      by (apply hinge_Qeq; intros; ring).
    rewrite Hh. ring.
Qed.
End TrainD.

Lemma train_d_real_witness :
  ∃ r, @train_d Toy.collaborators Toy.discriminator
         (Tensor4 {| value := Toy.image; requires_grad := false |})
         "real" Toy.random = Ok r.
Proof.
  destruct (@train_d_real Toy.collaborators Toy.discriminator
              {| value := Toy.image; requires_grad := false |} Toy.random
              [1 # 2]%Q Toy.image Toy.small Toy.small)
    as (cropped & err & net' & g' & Hrun & _).
  - intros k. split; [discriminate | reflexivity].
  - reflexivity.
  - eexists. exact Hrun.
Defined.

(** C10.  [crop_image_by_part] returns an image exactly when [part] is
    one of 0, 1, 2, 3, and [None] for every other integer.  The index that
    [train_d] passes is drawn by [random.randint(0, 3)], which lies in
    that range, so the crop is always an image there and the real path
    of [train_d] on a tensor never meets [None]. *)
Theorem crop_part_precondition :
  (∀ (A : Type) (image : t4 A) (part : Z),
     is_Some (crop_image_by_part image part) ↔ (0 ≤ part ≤ 3)%Z) ∧
  (∀ (A : Type) (image : t4 A) (part : Z),
     ¬ (0 ≤ part ≤ 3)%Z → crop_image_by_part image part = None) ∧
  (∀ (A : Type) (image : t4 A) (g : rng),
     (0 ≤ (randint 0 3 g).1 ≤ 3)%Z ∧
     is_Some (crop_image_by_part image (randint 0 3 g).1)) ∧
  (∀ (C : Collaborators) (net : module) (x : var) (g : rng),
     ∃ r, train_d net (Tensor4 x) "real" g = Ok r).
Proof.
  split_and!.
  - intros A image part. apply crop_is_Some.
  - intros A image part Hp.
    destruct (crop_image_by_part image part) eqn:Hc; [|done].
    destruct Hp. apply (crop_is_Some image part). eauto.
  - intros A image g.
    pose proof (randint_range 0 3 g ltac:(lia)) as Hr.
    split; [done|]. by apply crop_is_Some.
  - intros C net x g.
    pose proof (randint_range 0 3 g ltac:(lia)) as Hr.
    apply (crop_is_Some (value x)) in Hr as [cropped Hc].
    unfold train_d. cbn [String.eqb Ascii.eqb Bool.eqb].
    destruct (randint 0 3 g) as [part g1].
    destruct (netD_real net (Tensor4 x) part) as [pred [[ra rs] rp]].
    destruct (rand_like pred g1) as [U g2].
    cbn in Hc. rewrite Hc. eauto.
Qed.


(** ** The EMA shadow *)

Lemma ema_tensor_same_shape (avg_p p : tensor) :
  length p = length avg_p →
  ema_tensor avg_p p = Ok (zip_with (λ a x, a * 0.999 + 0.001 * x)%Q avg_p p).
Proof. intros Hl. unfold ema_tensor. by rewrite Hl, Nat.eqb_refl. Qed.

Lemma ema_update_lookup (params avg avg' : list tensor) (i : nat) (p avg_p : tensor) :
  ema_update params avg = Ok avg' →
  params !! i = Some p → avg !! i = Some avg_p → length p = length avg_p →
  avg' !! i = Some (zip_with (λ a x, a * 0.999 + 0.001 * x)%Q avg_p p).
Proof.
  revert avg avg' i.
  induction params as [|q params IH]; intros [|a avg] avg' i Hrun Hp Ha Hl;
    try done.
  cbn in Hrun.
  destruct (ema_tensor a q) as [a'|] eqn:Ht; [|done].
  destruct (ema_update params avg) as [rest|] eqn:Hrest; [|done].
  simplify_eq. destruct i as [|i]; simplify_eq/=.
  - rewrite ema_tensor_same_shape in Ht by done. by simplify_eq.
  - by eapply IH.
Qed.






Example ema_two_steps :
  ema_repeat 2 [[1; 2]%Q] [[0; 0]%Q]
  = Ok [[0.001999000000; 0.003998000000]%Q].
Proof. reflexivity. Qed.

(** ** The training loop *)

Section Loop.
Context `{Collaborators}.

Lemma augment_all_spec (xs : list var) (s : train_state) :
  augment_all xs s
  = Ok (augmented (augment_calls s) xs,
        set_augment_calls (augment_calls s + length xs) s).
Proof.
  revert s. induction xs as [|x xs IH]; intros s.
  - cbn. unfold ret. destruct s; cbn. by rewrite Nat.add_0_r.
  - cbn [augment_all]. unfold bind at 1. unfold augment at 1.
    unfold bind, read, modify, ret. cbn. rewrite IH. cbn.
    unfold augmented. cbn. rewrite Nat.add_0_r. do 2 f_equal.
    + f_equal. apply imap_ext. intros k y _. cbn. do 2 f_equal. lia.
    + unfold set_augment_calls. cbn. f_equal. lia.
Qed.

Lemma replace_paired_self (ps : list (string * tensor)) :
  replace_paired ps (snd <$> ps) = ps.
Proof. induction ps as [|[name p] ps IH]; cbn; [done|]. by rewrite IH. Qed.

Lemma replace_paired_restore (ps : list (string * tensor)) (new : list tensor) :
  replace_paired (replace_paired ps new) (snd <$> ps) = ps.
Proof.
  revert new. induction ps as [|[name p] ps IH]; intros [|v new]; cbn; try done.
  - by rewrite replace_paired_self.
  - by rewrite IH.
Qed.

Lemma load_params_restore (net : module) (new : list tensor) :
  load_params (load_params net new) (copy_G_params net) = net.
Proof.
  unfold load_params, copy_G_params. cbn.
  rewrite replace_paired_restore. by destruct net.
Qed.

Lemma set_netG_id (s : train_state) : set_netG (netG s) s = s.
Proof. by destruct s. Qed.

Lemma swap_round_trip_spec (s : train_state) : swap_round_trip s = Ok (tt, s).
Proof.
  unfold swap_round_trip, bind, read, modify. cbn.
  rewrite load_params_restore.
  change (set_netG (netG s) (set_netG (load_params (netG s) (avg_param_G s)) s))
    with (set_netG (netG s) s).
  by rewrite set_netG_id.
Qed.

Lemma save_checkpoint_spec (a : args) (iteration : Z) (s : train_state) :
  save_checkpoint a iteration s
  = Ok (tt, set_files (<[checkpoint_file a := checkpoint_record s]> (files s))
              (set_trace (trace s ++ [EvTorchSave (checkpoint_file a) iteration]) s)).
Proof.
  unfold save_checkpoint, bind, read, modify, emit. cbn.
  rewrite load_params_restore.
  destruct s; reflexivity.
Qed.

Lemma call_train_d_Ok (data : batch) (label : string) (s s' : train_state) r :
  call_train_d data label s = Ok (r, s') →
  ∃ net' g',
    train_d (netD s) data label (gen s) = Ok (r, net', g') ∧
    s' = set_gen g' (set_netD net'
           (set_trace (trace s ++ [EvTrainD label data]) s)).
Proof.
  unfold call_train_d, bind, read, modify, emit, ret, raise. cbn.
  destruct (train_d _ _ _ _) as [[[r' net'] g']|e] eqn:Hd; [|done].
  intros [= -> <-]. eauto.
Qed.

Lemma ema_step_Ok (u : unit) (s s' : train_state) :
  ema_step s = Ok (u, s') →
  ∃ avg',
    ema_update (snd <$> parameters (netG s)) (avg_param_G s) = Ok avg' ∧
    s' = set_avg_param_G avg' (set_trace (trace s ++ [EvEmaUpdate]) s).
Proof.
  unfold ema_step, bind, read, modify, emit, raise. cbn.
  destruct (ema_update _ _) as [avg'|e]; [|done].
  intros [= <-]. eauto.
Qed.

Lemma bind_Ok {A B} (m : M A) (k : A → M B) (s s'' : train_state) (b : B) :
  bind m k s = Ok (b, s'') →
  ∃ a s', m s = Ok (a, s') ∧ k a s' = Ok (b, s'').
Proof.
  unfold bind. destruct (m s) as [[a s']|e]; [|done]. eauto.
Qed.

Lemma train_iteration_summary (a : args) (iteration : Z) (s s' : train_state) :
  train_iteration a iteration s = Ok (tt, s') →
  ∃ real fakes loss_d loss_g,
    (trace s' = trace s ++
      [EvGeneratorForward; EvTrainD "real" (Tensor4 real);
       EvTrainD "fake" (TensorList (detach <$> fakes));
       EvOptimizerDStep; EvGeneratorBackward; EvOptimizerGStep; EvEmaUpdate] ++
      (if (iteration `mod` save_interval =? 0)%Z
       then [EvPrint iteration loss_d loss_g] else []) ++
      (if checkpoint_due a iteration
       then [EvTorchSave (checkpoint_file a) iteration] else [])) ∧
    requires_grad real = false ∧
    ema_update (snd <$> parameters (netG s')) (avg_param_G s)
      = Ok (avg_param_G s') ∧
    files s' =
      (if checkpoint_due a iteration
       then <[checkpoint_file a := checkpoint_record s']> (files s)
       else files s).
Proof.
  unfold train_iteration. intros Hrun.
  do 3 (apply bind_Ok in Hrun as (? & ? & [= <- <-] & Hrun)).
  destruct (normal_ _ _ _) as [noise g'] eqn:Hn.
  do 3 (apply bind_Ok in Hrun as (? & ? & [= <- <-] & Hrun)).
  apply bind_Ok in Hrun as (real & ? & [= <- <-] & Hrun).
  apply bind_Ok in Hrun as (fakes & ? & Hf & Hrun).
  rewrite augment_all_spec in Hf. injection Hf as <- <-.
  apply bind_Ok in Hrun as (? & ? & [= <- <-] & Hrun).
  apply bind_Ok in Hrun as (r & s1 & (net1 & g1 & Hd1 & ->)%call_train_d_Ok & Hrun).
  destruct r as [err_dr rec_all rec_small rec_part|]; [|done].
  apply bind_Ok in Hrun as (? & s2 & (net2 & g2 & Hd2 & ->)%call_train_d_Ok & Hrun).
  apply bind_Ok in Hrun as (? & s3 & Hs3 & Hrun).
  unfold optimizerD_step, bind, read, modify, emit in Hs3. cbn in Hs3.
  destruct (optim_step _ _) as [optD' psD] eqn:HoD in Hs3.
  injection Hs3 as <- <-.
  do 5 (apply bind_Ok in Hrun as (? & ? & [= <- <-] & Hrun)).
  apply bind_Ok in Hrun as (? & s4 & Hs4 & Hrun).
  unfold optimizerG_step, bind, read, modify, emit in Hs4. cbn in Hs4.
  destruct (optim_step _ _) as [optG' psG] eqn:HoG in Hs4.
  injection Hs4 as <- <-.
  apply bind_Ok in Hrun as (? & s5 & (avg' & Hema & ->)%ema_step_Ok & Hrun).
  apply bind_Ok in Hrun as (? & s6 & Hs6 & Hrun).
  apply bind_Ok in Hrun as (? & s7 & Hs7 & Hrun).
  eexists _, _, _, _.
  destruct (iteration `mod` save_interval =? 0)%Z;
    destruct (iteration `mod` (save_interval * 10) =? 0)%Z;
    rewrite ?swap_round_trip_spec in Hs7;
    destruct (checkpoint_due a iteration);
    rewrite ?save_checkpoint_spec in Hrun;
    unfold emit, modify, ret in Hs6, Hs7, Hrun; simplify_eq.
  all: cbn in Hema |- *; rewrite <-?(assoc_L (++)); cbn; split_and!; reflexivity || exact Hema.
Qed.
End Loop.

Lemma existsb_detach (xs : list var) : existsb requires_grad (detach <$> xs) = false.
Proof. induction xs as [|x xs IH]; cbn; [done|]. exact IH. Qed.

(** Closes a goal with a hypothesis placing an event in a list of
    events of other kinds. *)
Ltac event_absent :=
  repeat match goal with
  | H : _ ∈ _ ++ _ |- _ => apply elem_of_app in H as [H|H]
  | H : _ ∈ (if ?c then _ else _) |- _ => destruct c
  | H : _ ∈ _ :: _ |- _ => apply elem_of_cons in H as [H|H]; [discriminate H|]
  | H : _ ∈ [] |- _ => by apply elem_of_nil in H
  end.

Section Fake.
Context `{Collaborators}.

(** C5.  On a fake batch [train_d] back-propagates
    [mean (relu (0.8 + 0.2*U + pred))], where [U] has [pred]'s shape
    and is read from the uniform stream at the current position, which
    the call then moves past its last draw: the next [rand_like] reads
    the positions that follow those of [U].  In the loop the batch handed to this step is the list of
    detached fake images, none of which requires grad, so the
    [backward()] does not reach the generator. *)
Theorem train_d_fake :
  (∀ (net : module) (data : batch) (g : rng),
     uniform_range g →
     let pred := netD_fake net data in
     let U := uniform_draws g <$> seq (uniform_pos g) (length pred) in
     ∃ (err : Q) (net' : module) (g' : rng),
       train_d net data "fake" g = Ok (FakeResult (tmean pred), net', g') ∧
       length U = length pred ∧
       Forall (λ u, (0 <= u)%Q ∧ (u < 1)%Q) U ∧
       (err == tmean (relu <$> zip_with (λ u p, 0.8 + 0.2 * u + p) U pred))%Q ∧
       grad net' = grad net ++
         [ {| loss_value := err;
              reaches_generator := batch_requires_grad data |} ] ∧
       parameters net' = parameters net ∧
       buffers net' = buffers net ∧
       uniform_draws g' = uniform_draws g ∧
       uniform_pos g' = uniform_pos g + length pred ∧
       (∀ later : tensor,
          (rand_like later g').1 =
            uniform_draws g <$> seq (uniform_pos g + length pred) (length later))) ∧
  (∀ (a : args) (iteration : Z) (s s' : train_state),
     train_iteration a iteration s = Ok (tt, s') →
     ∃ (pre post : list event) (fakes : list var),
       trace s' = trace s ++ pre ++
         [EvTrainD "fake" (TensorList (detach <$> fakes))] ++ post ∧
       (∀ data, EvTrainD "fake" data ∉ pre ++ post) ∧
       Forall (λ x, requires_grad x = false) (detach <$> fakes) ∧
       batch_requires_grad (TensorList (detach <$> fakes)) = false).
Proof.
  split.
  - intros net data g Hg pred U.
    exists (hinge_fake U pred). eexists _, _. split; [reflexivity|].
    split_and!; try done.
    + subst U. by rewrite length_fmap, length_seq.
    + apply (rand_like_range g pred Hg).
    + unfold hinge_fake. apply hinge_Qeq. intros. ring.
  - intros a iteration s s' Hrun.
    apply train_iteration_summary in Hrun
      as (real & fakes & loss_d & loss_g & Htrace & _).
    eexists [EvGeneratorForward; EvTrainD "real" (Tensor4 real)], _, fakes.
    split; [exact Htrace|]. split_and!.
    + intros data Hin. event_absent.
    + apply Forall_fmap, Forall_forall. done.
    + apply existsb_detach.
Qed.
End Fake.

(** The shadow is what [load_params] puts into the generator when it
    has one tensor per parameter. *)
Lemma load_params_shadow (net : module) (new_param : list tensor) :
  length new_param = length (parameters net) →
  copy_G_params (load_params net new_param) = new_param.
Proof.
  unfold copy_G_params, load_params. cbn.
  generalize (parameters net). intros ps. revert new_param.
  induction ps as [|[name p] ps IH]; intros [|v new] Hl; simplify_eq/=; [done|].
  by rewrite IH.
Qed.

Section Claims.
Context `{Collaborators}.

(** C2.  One pass of the loop body makes exactly one generator
    optimizer step and exactly one EMA update, the update right after
    the step; the generator's forward pass of the iteration comes
    before both and none follows, so the update precedes the next
    iteration's forward pass.  Every shadow tensor paired with a
    parameter of the same shape becomes [shadow * 0.999 + 0.001 * param],
    with [param] the value the optimizer step has left in the generator
    (the parameters at the end of the iteration). *)
Theorem ema_after_generator_step (a : args) (iteration : Z) (s s' : train_state) :
  train_iteration a iteration s = Ok (tt, s') →
  (∃ pre post : list event,
     trace s' = trace s ++ pre ++ [EvOptimizerGStep; EvEmaUpdate] ++ post ∧
     (EvOptimizerGStep ∉ pre ++ post) ∧
     (EvEmaUpdate ∉ pre ++ post) ∧
     EvGeneratorForward ∈ pre ∧
     EvGeneratorForward ∉ post) ∧
  (∀ (i : nat) (name : string) (p avg_p : tensor),
     parameters (netG s') !! i = Some (name, p) →
     avg_param_G s !! i = Some avg_p →
     length p = length avg_p →
     avg_param_G s' !! i
     = Some (zip_with (λ shadow x, shadow * 0.999 + 0.001 * x)%Q avg_p p)).
Proof.
  intros Hrun.
  apply train_iteration_summary in Hrun
    as (real & fakes & loss_d & loss_g & Htrace & _ & Hema & _).
  split.
  - eexists [EvGeneratorForward; EvTrainD "real" (Tensor4 real);
             EvTrainD "fake" (TensorList (detach <$> fakes));
             EvOptimizerDStep; EvGeneratorBackward], _.
    split; [exact Htrace|]. split_and!.
    + intros Hin. event_absent.
    + intros Hin. event_absent.
    + apply elem_of_cons. by left.
    + intros Hin. event_absent.
  - intros i name p avg_p Hp Ha Hl.
    eapply ema_update_lookup; [exact Hema | | exact Ha | exact Hl].
    by rewrite list_lookup_fmap, Hp.
Qed.

(** C6.  The checkpoint branch writes: after [save_checkpoint] the
    run's single path [saved_model_folder/model_name], which does not
    depend on the iteration, holds the record of the state, whatever was
    stored there before, and every other path holds what it held.  An
    iteration whose checkpoint condition holds leaves the files with that
    record written, and any other iteration leaves them as they were.
    The record has exactly the keys g, d, g_ema, opt_g and opt_d and
    holds the state at the end of the iteration: the generator's live
    weights, the discriminator's weights, the EMA shadow and the two
    optimizer states. *)
Theorem checkpoint_record_contents (a : args) (iteration : Z) (s s' : train_state) :
  train_iteration a iteration s = Ok (tt, s') →
  files s' =
    (if checkpoint_due a iteration
     then <[checkpoint_file a := checkpoint_record s']> (files s)
     else files s) ∧
  (checkpoint_due a iteration = true →
   files s' !! checkpoint_file a = Some (checkpoint_record s') ∧
   EvTorchSave (checkpoint_file a) iteration ∈ trace s') ∧
  (∀ s0 : train_state, ∃ s1 : train_state,
     save_checkpoint a iteration s0 = Ok (tt, s1) ∧
     files s1 !! checkpoint_file a = Some (checkpoint_record s0) ∧
     checkpoint_record s1 = checkpoint_record s0 ∧
     (∀ other, other ≠ checkpoint_file a →
               files s1 !! other = files s0 !! other)) ∧
  checkpoint_file a = saved_model_folder a +:+ "/" +:+ model_name a ∧
  dom (checkpoint_record s') = {["g"; "d"; "g_ema"; "opt_g"; "opt_d"]} ∧
  checkpoint_record s' !! "g" = Some (PStateDict (state_dict (netG s'))) ∧
  checkpoint_record s' !! "d" = Some (PStateDict (state_dict (netD s'))) ∧
  checkpoint_record s' !! "g_ema" = Some (PTensors (avg_param_G s')) ∧
  checkpoint_record s' !! "opt_g" = Some (POptimizer (optimizerG s')) ∧
  checkpoint_record s' !! "opt_d" = Some (POptimizer (optimizerD s')) ∧
  (∀ (old : gmap string (gmap string pickled)) (record : gmap string pickled)
     (other : string),
     <[checkpoint_file a := record]> old !! checkpoint_file a = Some record ∧
     (other ≠ checkpoint_file a →
      <[checkpoint_file a := record]> old !! other = old !! other)).
Proof.
  intros Hrun.
  apply train_iteration_summary in Hrun
    as (real & fakes & loss_d & loss_g & Htrace & _ & _ & Hfiles).
  split_and!; try done.
  - intros Hdue. rewrite Hdue in Hfiles, Htrace. split.
    + rewrite Hfiles. apply lookup_insert_eq.
    + rewrite Htrace, !elem_of_app. right. right. right. by left.
  - intros s0. eexists. split; [apply save_checkpoint_spec|].
    split_and!; [apply lookup_insert_eq | by destruct s0 |].
    intros other Hne. by apply lookup_insert_ne.
  - intros old record other. split.
    + apply lookup_insert_eq.
    + intros Hne. by apply lookup_insert_ne.
Qed.

Lemma checkpoint_due_spec (a : args) (iteration : Z) :
  checkpoint_due a iteration = true ↔
  (0 < iteration ∧
   (iteration `mod` 50000 = 0 ∨ iteration = iter a))%Z.
Proof.
  unfold checkpoint_due, save_interval.
  rewrite andb_true_iff, orb_true_iff, Z.ltb_lt, !Z.eqb_eq. done.
Qed.

Lemma load_checkpoint_trace (checkpoint : string) (u : unit) (s s' : train_state) :
  load_checkpoint checkpoint s = Ok (u, s') → trace s' = trace s.
Proof.
  unfold load_checkpoint, load_weights, load_optimizer, getitem.
  unfold bind, read, modify, ret, raise.
  intros Hrun. repeat (case_match; simplify_eq/=; try done).
Qed.

Lemma train_iteration_saves (a : args) (iteration : Z) (s s' : train_state) :
  train_iteration a iteration s = Ok (tt, s') →
  ∃ new : list event,
    trace s' = trace s ++ new ∧
    List.filter is_torch_save new
    = if checkpoint_due a iteration
      then [EvTorchSave (checkpoint_file a) iteration] else [].
Proof.
  intros Hrun.
  apply train_iteration_summary in Hrun
    as (real & fakes & loss_d & loss_g & Htrace & _).
  eexists. split; [exact Htrace|].
  cbn. by repeat case_match.
Qed.

Lemma for_each_saves (a : args) (xs : list Z) (s s' : train_state) :
  for_each xs (train_iteration a) s = Ok (tt, s') →
  ∃ new : list event,
    trace s' = trace s ++ new ∧
    List.filter is_torch_save new
    = EvTorchSave (checkpoint_file a) <$> List.filter (checkpoint_due a) xs.
Proof.
  revert s. induction xs as [|x xs IH]; intros s Hrun.
  - injection Hrun as <-. exists []. by rewrite app_nil_r.
  - cbn in Hrun. apply bind_Ok in Hrun as ([] & s1 & Hx & Hrest).
    apply train_iteration_saves in Hx as (new1 & Ht1 & Hf1).
    apply IH in Hrest as (new2 & Ht2 & Hf2).
    exists (new1 ++ new2). split.
    + by rewrite Ht2, Ht1, (assoc_L (++)).
    + rewrite List.filter_app, Hf1, Hf2. cbn.
      by destruct (checkpoint_due a x).
Qed.

Lemma elem_of_range (lo hi j : Z) : j ∈ range lo hi ↔ (lo ≤ j < hi)%Z.
Proof.
  unfold range. rewrite list_elem_of_fmap. split.
  - intros (k & -> & Hk). apply elem_of_seq in Hk. lia.
  - intros Hj. exists (Z.to_nat (j - lo)). split; [lia|].
    apply elem_of_seq. lia.
Qed.

(** C7, amended.  The checkpoint condition holds exactly at the
    iterations greater than 0 that are a multiple of 50 * 1000 or equal
    to [total_iterations].  An iteration writes one checkpoint when it
    holds and none otherwise, and over a whole run the checkpoints
    written are, in order, those of the iterations of
    [range(start_iter, total_iterations + 1)] at which it holds. *)
Theorem checkpoint_iterations :
  (∀ (a : args) (iteration : Z),
     checkpoint_due a iteration = true ↔
     (0 < iteration ∧
      (iteration `mod` (50 * 1000) = 0 ∨ iteration = iter a))%Z) ∧
  (∀ (a : args) (iteration : Z) (s s' : train_state),
     train_iteration a iteration s = Ok (tt, s') →
     ∃ new : list event,
       trace s' = trace s ++ new ∧
       List.filter is_torch_save new
       = if checkpoint_due a iteration
         then [EvTorchSave (checkpoint_file a) iteration] else []) ∧
  (∀ (a : args) (s s' : train_state),
     train a s = Ok (tt, s') →
     ∃ new : list event,
       trace s' = trace s ++ new ∧
       List.filter is_torch_save new
       = EvTorchSave (checkpoint_file a) <$>
           List.filter (checkpoint_due a)
             (range (start_iter a) (iter a + 1))) ∧
  (∀ (a : args) (iteration : Z),
     iteration ∈ range (start_iter a) (iter a + 1) ↔
     (start_iter a ≤ iteration ≤ iter a)%Z).
Proof.
  split_and!; [| | |intros; rewrite elem_of_range; lia].
  - intros a iteration. apply checkpoint_due_spec.
  - apply train_iteration_saves.
  - intros a s s' Hrun. unfold train in Hrun.
    apply bind_Ok in Hrun as (? & ? & [= <- <-] & Hrun).
    apply bind_Ok in Hrun as ([] & s0 & [= <-] & Hrun).
    apply bind_Ok in Hrun as (u & s1 & Hload & Hrun).
    apply for_each_saves in Hrun as (new & Ht & Hf).
    exists new. split; [|done]. rewrite Ht. f_equal.
    destruct (ckpt a) as [checkpoint|].
    + by apply load_checkpoint_trace in Hload.
    + by injection Hload as _ <-.
Qed.

(** C3, amended.  With a shadow that has one tensor per generator
    parameter, the checkpoint branch first puts the shadow values into
    the generator and then puts the saved parameters back, before
    anything is written: the generator after the branch is the generator
    before it, the record written holds the live weights under ['g'] and
    the shadow under ['g_ema'], and the shadow is unchanged. *)
Theorem checkpoint_swap_restores (a : args) (iteration : Z) (s : train_state) :
  length (avg_param_G s) = length (parameters (netG s)) →
  ∃ s' : train_state,
    save_checkpoint a iteration s = Ok (tt, s') ∧
    copy_G_params (load_params (netG s) (avg_param_G s)) = avg_param_G s ∧
    load_params (load_params (netG s) (avg_param_G s)) (copy_G_params (netG s))
      = netG s ∧
    netG s' = netG s ∧
    avg_param_G s' = avg_param_G s ∧
    files s' !! checkpoint_file a = Some (checkpoint_record s) ∧
    checkpoint_record s !! "g" = Some (PStateDict (state_dict (netG s))) ∧
    checkpoint_record s !! "g_ema" = Some (PTensors (avg_param_G s)).
Proof.
  intros Hshadow.
  eexists. split; [apply save_checkpoint_spec|].
  split_and!; try done.
  - by apply load_params_shadow.
  - apply load_params_restore.
  - cbn. apply lookup_insert_eq.
Qed.

End Claims.

(** C3, as stated, fails: at the final iteration of a one-iteration run
    the weights saved under ['g'] are the live ones, [[2; 3]], not the
    shadow. *)
Lemma saved_generator_is_not_shadow :
  match @train_iteration Toy.collaborators (Toy.arguments 1) 1 Toy.state with
  | Ok (_, s') =>
      files s' !! checkpoint_file (Toy.arguments 1) ≫= (.!! "g")
        = Some (PStateDict [("w", [2; 3]%Q)]) ∧
      avg_param_G s' = [[0.002000; 0.003000]%Q] ∧
      [[2; 3]%Q] ≠ avg_param_G s'
  | Raise _ => False
  end.
Proof.
  vm_compute. split_and!; [reflexivity | reflexivity | discriminate].
Qed.

(** C7, as stated, fails: iteration 0 is a multiple of 50 000 and, in a
    run with [total_iterations = 0], also the final iteration, and no
    checkpoint is written. *)
Lemma no_checkpoint_at_iteration_zero :
  (0 `mod` (50 * 1000) = 0)%Z ∧
  iter (Toy.arguments 0) = 0%Z ∧
  match @train Toy.collaborators (Toy.arguments 0) Toy.state with
  | Ok (_, s') =>
      List.filter is_torch_save (trace s') = [] ∧
      files s' = ∅ ∧
      EvGeneratorForward ∈ trace s'
  | Raise _ => False
  end.
Proof.
  split; [reflexivity|]. split; [reflexivity|].
  vm_compute. split_and!; [reflexivity | reflexivity | by left].
Qed.

(** The same run with [total_iterations = 1] does write its checkpoint
    at the final iteration. *)
Example checkpoint_at_final_iteration :
  match @train Toy.collaborators (Toy.arguments 1) Toy.state with
  | Ok (_, s') =>
      List.filter is_torch_save (trace s')
      = [EvTorchSave "models/toy_model.pth" 1]
  | Raise _ => False
  end.
Proof. vm_compute. reflexivity. Qed.

(** ** Resuming from a checkpoint *)

Lemma load_entry_fits (sd : gmap string tensor) (entry : string * tensor) :
  size_matches sd entry → load_entry sd entry = Some (loaded_value sd entry).
Proof.
  unfold size_matches, load_entry, loaded_value. intros Hfit.
  destruct (sd !! entry.1) as [v|]; cbn.
  - by rewrite (Hfit v eq_refl), Nat.eqb_refl.
  - by destruct entry.
Qed.

Lemma mapM_load_entry_fits (sd : gmap string tensor) (entries : list (string * tensor)) :
  Forall (size_matches sd) entries →
  mapM (load_entry sd) entries = Some (loaded_value sd <$> entries).
Proof.
  induction 1 as [|entry entries Hfit _ IH]; [done|].
  cbn. rewrite load_entry_fits by done. cbn. by rewrite IH.
Qed.

Lemma load_entry_Some (sd : gmap string tensor) (entry e : string * tensor) :
  load_entry sd entry = Some e → size_matches sd entry.
Proof.
  unfold load_entry, size_matches. intros He v Hv. rewrite Hv in He.
  destruct (length v =? length entry.2) eqn:Hl; [|done]. by apply Nat.eqb_eq.
Qed.

Lemma mapM_load_entry_Some (sd : gmap string tensor)
    (entries loaded : list (string * tensor)) :
  mapM (load_entry sd) entries = Some loaded → Forall (size_matches sd) entries.
Proof.
  revert loaded. induction entries as [|entry entries IH]; intros loaded Hm.
  - constructor.
  - cbn in Hm. destruct (load_entry sd entry) as [e|] eqn:He; [|done].
    cbn in Hm. destruct (mapM (load_entry sd) entries) as [es|] eqn:Hes; [|done].
    constructor; [by eapply load_entry_Some | by eapply IH].
Qed.

Lemma load_state_dict_fits (net : module) (sd : gmap string tensor) :
  Forall (size_matches sd) (state_dict net) →
  load_state_dict net sd
  = Ok {| parameters := loaded_value sd <$> parameters net;
          buffers := loaded_value sd <$> buffers net;
          grad := grad net |}.
Proof.
  unfold state_dict, load_state_dict. intros [Hp Hb]%Forall_app.
  by rewrite !mapM_load_entry_fits.
Qed.

Lemma load_state_dict_mismatch (net : module) (sd : gmap string tensor) :
  ¬ Forall (size_matches sd) (state_dict net) →
  load_state_dict net sd = Raise RuntimeError.
Proof.
  unfold state_dict, load_state_dict. rewrite Forall_app. intros Hfit.
  destruct (mapM (load_entry sd) (parameters net)) as [ps|] eqn:Hp; [|done].
  destruct (mapM (load_entry sd) (buffers net)) as [bs|] eqn:Hb; [|done].
  destruct Hfit. split; by eapply mapM_load_entry_Some.
Qed.

Lemma remove_module_prefix (k : string) :
  remove_all "module." 0 ("module." +:+ k) = remove_all "module." 0 k.
Proof. destruct k; reflexivity. Qed.

Section Load.
Context `{Collaborators}.

Lemma load_checkpoint_eq (checkpoint : string) (s : train_state)
    (ck : gmap string pickled) (sd_g sd_d : list (string * tensor))
    (ts : list tensor) (og od : optimizer) :
  files s !! checkpoint = Some ck →
  ck !! "g" = Some (PStateDict sd_g) →
  ck !! "d" = Some (PStateDict sd_d) →
  ck !! "g_ema" = Some (PTensors ts) →
  ck !! "opt_g" = Some (POptimizer og) →
  ck !! "opt_d" = Some (POptimizer od) →
  load_checkpoint checkpoint s
  = match load_state_dict (netG s) (strip_module sd_g) with
    | Raise e => Raise e
    | Ok net_g =>
        match load_state_dict (netD s) (strip_module sd_d) with
        | Raise e => Raise e
        | Ok net_d =>
            match optim_load_state_dict (optimizerG s) og with
            | None => Raise ValueError
            | Some og' =>
                match optim_load_state_dict (optimizerD s) od with
                | None => Raise ValueError
                | Some od' =>
                    Ok (tt, set_optimizerD od' (set_optimizerG og'
                              (set_avg_param_G ts
                                 (set_netD net_d (set_netG net_g s)))))
                end
            end
        end
    end.
Proof.
  intros Hf Hg Hd Hema Hog Hod.
  unfold load_checkpoint, load_weights, load_optimizer, getitem.
  unfold bind, read, modify, ret, raise.
  rewrite Hf, Hg, Hd, Hema, Hog, Hod. cbn.
  destruct (load_state_dict (netG s) _) as [net_g|]; [|done]. cbn.
  destruct (load_state_dict (netD s) _) as [net_d|]; [|done]. cbn.
  destruct (optim_load_state_dict (optimizerG s) og) as [og'|]; [|done]. cbn.
  destruct (optim_load_state_dict (optimizerD s) od) as [od'|]; done.
Qed.

(** What [load_state_dict] of [torch.optim.Optimizer] compares: the
    number of parameters in each parameter group of the loaded state and
    of the optimizer.  It raises [ValueError] when these differ and
    otherwise returns, whatever the shapes of the state tensors. *)
Variable param_groups : optimizer → list nat.
Hypothesis load_state_dict_groups :
  ∀ cur sd : optimizer,
    is_Some (optim_load_state_dict cur sd) ↔ param_groups sd = param_groups cur.

(** C4, amended.  For a checkpoint file holding the five values:
    when every weight present (keys taken with ['module.'] removed) has
    the size of the model's entry of that name and both optimizers
    accept their state, the load succeeds; each entry of the model takes
    the loaded value when its key is present and keeps its own value
    when it is missing, the optimizers take what their
    [load_state_dict] returns, and the shadow becomes the stored list as
    it is, whatever its shapes.  A leading ['module.'] of a stored key
    is dropped.  The load raises when a present weight has another size,
    or when an optimizer rejects its state, which it does exactly when
    the parameter groups of the state differ in number or size from its
    own: with fitting weights and matching groups the load returns,
    whatever the shapes of the shadow and of the optimizers' state
    tensors. *)
Theorem load_checkpoint_behaviour (checkpoint : string) (s : train_state)
    (ck : gmap string pickled) (sd_g sd_d : list (string * tensor))
    (ts : list tensor) (og od : optimizer) :
  files s !! checkpoint = Some ck →
  ck !! "g" = Some (PStateDict sd_g) →
  ck !! "d" = Some (PStateDict sd_d) →
  ck !! "g_ema" = Some (PTensors ts) →
  ck !! "opt_g" = Some (POptimizer og) →
  ck !! "opt_d" = Some (POptimizer od) →
  let weights_fit :=
    Forall (size_matches (strip_module sd_g)) (state_dict (netG s)) ∧
    Forall (size_matches (strip_module sd_d)) (state_dict (netD s)) in
  (weights_fit →
   ∀ og' od' : optimizer,
     optim_load_state_dict (optimizerG s) og = Some og' →
     optim_load_state_dict (optimizerD s) od = Some od' →
     ∃ s' : train_state,
       load_checkpoint checkpoint s = Ok (tt, s') ∧
       parameters (netG s')
         = loaded_value (strip_module sd_g) <$> parameters (netG s) ∧
       buffers (netG s')
         = loaded_value (strip_module sd_g) <$> buffers (netG s) ∧
       parameters (netD s')
         = loaded_value (strip_module sd_d) <$> parameters (netD s) ∧
       buffers (netD s')
         = loaded_value (strip_module sd_d) <$> buffers (netD s) ∧
       avg_param_G s' = ts ∧
       optimizerG s' = og' ∧
       optimizerD s' = od') ∧
  (∀ (sd : gmap string tensor) (entry : string * tensor),
     (sd !! entry.1 = None → loaded_value sd entry = entry) ∧
     (∀ v, sd !! entry.1 = Some v → loaded_value sd entry = (entry.1, v))) ∧
  (∀ k : string,
     remove_all "module." 0 ("module." +:+ k) = remove_all "module." 0 k) ∧
  (¬ weights_fit → load_checkpoint checkpoint s = Raise RuntimeError) ∧
  (weights_fit →
   optim_load_state_dict (optimizerG s) og = None ∨
   optim_load_state_dict (optimizerD s) od = None →
   load_checkpoint checkpoint s = Raise ValueError) ∧
  (weights_fit →
   param_groups og ≠ param_groups (optimizerG s) ∨
   param_groups od ≠ param_groups (optimizerD s) →
   load_checkpoint checkpoint s = Raise ValueError) ∧
  (weights_fit →
   param_groups og = param_groups (optimizerG s) →
   param_groups od = param_groups (optimizerD s) →
   ∃ s' : train_state,
     load_checkpoint checkpoint s = Ok (tt, s') ∧
     avg_param_G s' = ts ∧
     optim_load_state_dict (optimizerG s) og = Some (optimizerG s') ∧
     optim_load_state_dict (optimizerD s) od = Some (optimizerD s')).
Proof.
  intros Hf Hg Hd Hema Hog Hod weights_fit.
  rewrite (load_checkpoint_eq _ _ _ _ _ _ _ _ Hf Hg Hd Hema Hog Hod).
  split_and!.
  - intros [Hfg Hfd] og' od' Hg' Hd'.
    rewrite (load_state_dict_fits _ _ Hfg), (load_state_dict_fits _ _ Hfd).
    rewrite Hg', Hd'. eexists. split; [reflexivity|]. done.
  - intros sd entry. unfold loaded_value. split.
    + intros ->. by destruct entry.
    + by intros v ->.
  - apply remove_module_prefix.
  - intros Hfit.
    destruct (load_state_dict (netG s) _) as [net_g|e] eqn:Hlg.
    + destruct (load_state_dict (netD s) _) as [net_d|e] eqn:Hld.
      * destruct Hfit. unfold load_state_dict in Hlg, Hld.
        repeat case_match; simplify_eq.
        split; unfold state_dict; apply Forall_app;
          split; by eapply mapM_load_entry_Some.
      * unfold load_state_dict in Hld. by repeat case_match; simplify_eq.
    + unfold load_state_dict in Hlg. by repeat case_match; simplify_eq.
  - intros [Hfg Hfd] Hopt.
    rewrite (load_state_dict_fits _ _ Hfg), (load_state_dict_fits _ _ Hfd).
    destruct Hopt as [-> | Hd']; [done|].
    rewrite Hd'. by destruct (optim_load_state_dict (optimizerG s) og).
  - intros [Hfg Hfd] Hgroups.
    rewrite (load_state_dict_fits _ _ Hfg), (load_state_dict_fits _ _ Hfd).
    destruct (optim_load_state_dict (optimizerG s) og) as [og'|] eqn:HoG; [|done].
    destruct (optim_load_state_dict (optimizerD s) od) as [od'|] eqn:HoD; [|done].
    destruct Hgroups as [Hne|Hne]; destruct Hne;
      apply load_state_dict_groups; by rewrite ?HoG, ?HoD.
  - intros [Hfg Hfd] HgG HgD.
    rewrite (load_state_dict_fits _ _ Hfg), (load_state_dict_fits _ _ Hfd).
    apply load_state_dict_groups in HgG as [og' HoG].
    apply load_state_dict_groups in HgD as [od' HoD].
    rewrite HoG, HoD. eexists. split; [reflexivity|]. done.
Qed.
End Load.

(** C4, as stated, fails: a checkpoint whose shadow tensor and whose
    generator optimizer moment have three entries is loaded into a
    generator whose parameter has two, and the load returns normally
    with that shadow and that optimizer state installed. *)
Lemma mismatched_shadow_is_loaded :
  match @load_checkpoint Toy.collaborators "models/old.pth" Toy.resumed with
  | Ok (_, s') =>
      avg_param_G s' = [[9; 9; 9]%Q] ∧
      parameters (netG s') = [("w", [5; 6]%Q)] ∧
      ¬ Forall2 (λ (a : tensor) (p : string * tensor), length a = length p.2)
          (avg_param_G s') (parameters (netG s')) ∧
      optimizerG s' = (3, [[0; 0; 0]%Q]) ∧
      ¬ Forall2 (λ (m : tensor) (p : string * tensor), length m = length p.2)
          (optimizerG s').2 (parameters (netG s'))
  | Raise _ => False
  end.
Proof.
  vm_compute. split_and!; [reflexivity | reflexivity | | reflexivity |].
  - intros Hshape. apply Forall2_cons in Hshape as [Hl _]. discriminate Hl.
  - intros Hshape. apply Forall2_cons in Hshape as [Hl _]. discriminate Hl.
Qed.

(** The optimizer of the concrete instance loads as PyTorch's does. *)
Lemma toy_load_state_dict_groups (cur sd : nat * list tensor) :
  is_Some (@optim_load_state_dict Toy.collaborators cur sd) ↔
  [length sd.2] = [length cur.2].
Proof.
  cbn. destruct (Nat.eqb_spec (length sd.2) (length cur.2)) as [Heq|Hne].
  - split; [by rewrite Heq|by eexists].
  - split; [by intros [? ?]|]. intros [= ?]. done.
Qed.

Lemma load_checkpoint_behaviour_witness :
  ∃ s' : train_state,
    @load_checkpoint Toy.collaborators "models/old.pth" Toy.resumed
      = Ok (tt, s') ∧
    avg_param_G s' = [[9; 9; 9]%Q].
Proof.
  destruct (@load_checkpoint_behaviour Toy.collaborators
              (λ o, [length o.2]) toy_load_state_dict_groups
              "models/old.pth" Toy.resumed Toy.mismatched
              [("module.w", [5; 6]%Q)] [("w", [7]%Q)] [[9; 9; 9]%Q]
              (3, [[0; 0; 0]%Q]) (3, [[0]%Q]))
    as (_ & _ & _ & _ & _ & _ & Hok); try reflexivity.
  destruct (Hok ltac:(split; repeat constructor; intros v [= <-]; reflexivity)
              eq_refl eq_refl)
    as (s' & Hrun & Hema & _).
  exists s'. split; [exact Hrun | exact Hema].
Defined.

(** ** The statements above on a concrete run *)

Lemma ema_after_generator_step_witness :
  match @train_iteration Toy.collaborators (Toy.arguments 1) 1 Toy.state with
  | Ok (_, s') =>
      ∃ pre post : list event,
        trace s' = trace Toy.state ++ pre ++
          [EvOptimizerGStep; EvEmaUpdate] ++ post
  | Raise _ => False
  end.
Proof.
  destruct (@train_iteration Toy.collaborators (Toy.arguments 1) 1 Toy.state)
    as [[[] s']|e] eqn:Hrun.
  - destruct (ema_after_generator_step _ _ _ _ Hrun)
      as [(pre & post & Htrace & _) _].
    by exists pre, post.
  - vm_compute in Hrun. discriminate Hrun.
Defined.

Lemma train_d_fake_witness :
  (∃ r, @train_d Toy.collaborators Toy.discriminator (TensorList []) "fake"
          Toy.random = Ok r) ∧
  match @train_iteration Toy.collaborators (Toy.arguments 1) 1 Toy.state with
  | Ok (_, s') =>
      ∃ (pre post : list event) (fakes : list var),
        trace s' = trace Toy.state ++ pre ++
          [EvTrainD "fake" (TensorList (detach <$> fakes))] ++ post
  | Raise _ => False
  end.
Proof.
  split.
  - destruct (proj1 (@train_d_fake Toy.collaborators)
                Toy.discriminator (TensorList []) Toy.random)
      as (err & net' & g' & Hrun & _).
    + intros k. split; [discriminate | reflexivity].
    + eexists. exact Hrun.
  - destruct (@train_iteration Toy.collaborators (Toy.arguments 1) 1 Toy.state)
      as [[[] s']|e] eqn:Hrun.
    + destruct (proj2 (@train_d_fake Toy.collaborators) _ _ _ _ Hrun)
        as (pre & post & fakes & Htrace & _).
      by exists pre, post, fakes.
    + vm_compute in Hrun. discriminate Hrun.
Defined.

Lemma checkpoint_record_contents_witness :
  match @train_iteration Toy.collaborators (Toy.arguments 1) 1 Toy.state with
  | Ok (_, s') =>
      files s' !! checkpoint_file (Toy.arguments 1) = Some (checkpoint_record s') ∧
      dom (checkpoint_record s') = {["g"; "d"; "g_ema"; "opt_g"; "opt_d"]} ∧
      checkpoint_record s' !! "g" = Some (PStateDict (state_dict (netG s')))
  | Raise _ => False
  end.
Proof.
  destruct (@train_iteration Toy.collaborators (Toy.arguments 1) 1 Toy.state)
    as [[[] s']|e] eqn:Hrun.
  - destruct (checkpoint_record_contents _ _ _ _ Hrun)
      as (_ & Hdue & _ & _ & Hdom & Hg & _).
    destruct (Hdue eq_refl) as [Hfile _].
    by split_and!.
  - vm_compute in Hrun. discriminate Hrun.
Defined.

Lemma checkpoint_iterations_witness :
  match @train Toy.collaborators (Toy.arguments 1) Toy.state with
  | Ok (_, s') =>
      ∃ new : list event,
        trace s' = trace Toy.state ++ new ∧
        List.filter is_torch_save new
        = EvTorchSave (checkpoint_file (Toy.arguments 1)) <$>
            List.filter (checkpoint_due (Toy.arguments 1))
              (range (start_iter (Toy.arguments 1))
                     (iter (Toy.arguments 1) + 1))
  | Raise _ => False
  end.
Proof.
  destruct (@train Toy.collaborators (Toy.arguments 1) Toy.state)
    as [[[] s']|e] eqn:Hrun.
  - destruct (@checkpoint_iterations Toy.collaborators) as (_ & _ & Hrunlevel & _).
    exact (Hrunlevel _ _ _ Hrun).
  - vm_compute in Hrun. discriminate Hrun.
Defined.

Lemma checkpoint_swap_restores_witness :
  ∃ s' : train_state,
    @save_checkpoint Toy.collaborators (Toy.arguments 1) 1 Toy.state
      = Ok (tt, s') ∧
    netG s' = netG Toy.state.
Proof.
  destruct (@checkpoint_swap_restores Toy.collaborators
              (Toy.arguments 1) 1 Toy.state)
    as (s' & Hrun & _ & _ & HnetG & _).
  - reflexivity.
  - exists s'. split; [exact Hrun | exact HnetG].
Defined.

(** * Further properties of the code *)

(** ** One pass of the loop, in full *)

Section LoopFull.
Context `{Collaborators}.

(** Every value an iteration computes, in the order of the source. *)
Lemma train_iteration_full (a : args) (iteration : Z) (s s' : train_state) :
  train_iteration a iteration s = Ok (tt, s') →
  let n := batches_drawn s in
  let drawn := normal_ (length (next_batch n)) nz (gen s) in
  let real :=
    {| value := DiffAugment (next_batch n) policy (augment_calls s);
       requires_grad := false |} in
  let fakes :=
    augmented (S (augment_calls s))
      ((λ x, {| value := x; requires_grad := true |})
         <$> netG_forward (netG s) drawn.1) in
  ∃ (err_dr : Q) (rec_all rec_small rec_part : t4 Q) (netD1 : module) (g1 : rng)
    (r2 : train_d_result) (netD2 : module) (g2 : rng)
    (netD3 : module) (err_g : Q) (netG1 : module),
    train_d (zero_grad (netD s)) (Tensor4 real) "real" drawn.2
      = Ok (RealResult err_dr rec_all rec_small rec_part, netD1, g1) ∧
    train_d netD1 (TensorList (detach <$> fakes)) "fake" g1
      = Ok (r2, netD2, g2) ∧
    netD3 = {| parameters := (optim_step (optimizerD s) netD2).2;
               buffers := buffers netD2; grad := grad netD2 |} ∧
    err_g = (- tmean (netD_fake netD3 (TensorList fakes)))%Q ∧
    netG1 = backward err_g (TensorList fakes) (zero_grad (netG s)) ∧
    netD s' = backward err_g (TensorList fakes) netD3 ∧
    netG s' = {| parameters := (optim_step (optimizerG s) netG1).2;
                 buffers := buffers netG1; grad := grad netG1 |} ∧
    optimizerD s' = (optim_step (optimizerD s) netD2).1 ∧
    optimizerG s' = (optim_step (optimizerG s) netG1).1 ∧
    ema_update (snd <$> parameters (netG s')) (avg_param_G s)
      = Ok (avg_param_G s') ∧
    gen s' = g2 ∧
    batches_drawn s' = S n ∧
    augment_calls s' =
      S (augment_calls s) + length (netG_forward (netG s) drawn.1) ∧
    trace s' = trace s ++
      [EvGeneratorForward; EvTrainD "real" (Tensor4 real);
       EvTrainD "fake" (TensorList (detach <$> fakes));
       EvOptimizerDStep; EvGeneratorBackward; EvOptimizerGStep; EvEmaUpdate] ++
      (if (iteration `mod` save_interval =? 0)%Z
       then [EvPrint iteration err_dr (- err_g)%Q] else []) ++
      (if checkpoint_due a iteration
       then [EvTorchSave (checkpoint_file a) iteration] else []) ∧
    files s' =
      (if checkpoint_due a iteration
       then <[checkpoint_file a := checkpoint_record s']> (files s)
       else files s).
Proof.
  unfold train_iteration. intros Hrun. cbv zeta.
  do 3 (apply bind_Ok in Hrun as (? & ? & [= <- <-] & Hrun)).
  destruct (normal_ _ _ _) as [noise g'] eqn:Hn.
  do 3 (apply bind_Ok in Hrun as (? & ? & [= <- <-] & Hrun)).
  apply bind_Ok in Hrun as (real & ? & [= <- <-] & Hrun).
  apply bind_Ok in Hrun as (fakes & ? & Hf & Hrun).
  rewrite augment_all_spec in Hf. injection Hf as <- <-.
  apply bind_Ok in Hrun as (? & ? & [= <- <-] & Hrun).
  apply bind_Ok in Hrun as (r & s1 & (net1 & g1 & Hd1 & ->)%call_train_d_Ok & Hrun).
  destruct r as [err_dr rec_all rec_small rec_part|]; [|done].
  apply bind_Ok in Hrun as (? & s2 & (net2 & g2 & Hd2 & ->)%call_train_d_Ok & Hrun).
  apply bind_Ok in Hrun as (? & s3 & Hs3 & Hrun).
  unfold optimizerD_step, bind, read, modify, emit in Hs3. cbn in Hs3.
  destruct (optim_step _ _) as [optD' psD] eqn:HoD in Hs3.
  injection Hs3 as <- <-.
  do 5 (apply bind_Ok in Hrun as (? & ? & [= <- <-] & Hrun)).
  apply bind_Ok in Hrun as (? & s4 & Hs4 & Hrun).
  unfold optimizerG_step, bind, read, modify, emit in Hs4. cbn in Hs4.
  destruct (optim_step _ _) as [optG' psG] eqn:HoG in Hs4.
  injection Hs4 as <- <-.
  apply bind_Ok in Hrun as (? & s5 & (avg' & Hema & ->)%ema_step_Ok & Hrun).
  apply bind_Ok in Hrun as (? & s6 & Hs6 & Hrun).
  apply bind_Ok in Hrun as (? & s7 & Hs7 & Hrun).
  cbn in Hd1, Hd2, HoD, HoG, Hema.
  cbn [fst snd].
  exists err_dr, rec_all, rec_small, rec_part, net1, g1. eexists _, net2, g2.
  eexists _, _, _.
  split; [exact Hd1|]. split; [exact Hd2|].
  split; [reflexivity|]. split; [reflexivity|]. split; [reflexivity|].
  rewrite HoD. cbn [fst snd]. rewrite HoG. cbn [fst snd].
  destruct (iteration `mod` save_interval =? 0)%Z;
    destruct (iteration `mod` (save_interval * 10) =? 0)%Z;
    rewrite ?swap_round_trip_spec in Hs7;
    destruct (checkpoint_due a iteration);
    rewrite ?save_checkpoint_spec in Hrun;
    unfold emit, modify, ret in Hs6, Hs7, Hrun; simplify_eq.
  all: cbn; rewrite <-?(assoc_L (++)); cbn;
    split_and!; try reflexivity; try exact Hema; try (rewrite length_fmap; lia).
Qed.

Lemma train_d_backward (net : module) (data : batch) (label : string) (g : rng)
    (r : train_d_result) (net' : module) (g' : rng) :
  train_d net data label g = Ok (r, net', g') →
  ∃ err : Q, net' = backward err data net.
Proof.
  unfold train_d. intros Hrun.
  repeat (case_match; simplify_eq/=); by eexists.
Qed.

Lemma train_d_real_inv (net : module) (x : var) (g : rng)
    (r : train_d_result) (net' : module) (g' : rng) :
  train_d net (Tensor4 x) "real" g = Ok (r, net', g') →
  let part := (randint 0 3 g).1 in
  let out := netD_real net (Tensor4 x) part in
  let U := (rand_like out.1 (randint 0 3 g).2).1 in
  ∃ cropped : t4 Q,
    crop_image_by_part (value x) part = Some cropped ∧
    r = RealResult (tmean out.1) out.2.1.1 out.2.1.2 out.2.2 ∧
    net' = backward
      (hinge_real U out.1
       + tsum (percept out.2.1.1 (interpolate (value x) (shape2 out.2.1.1)))
       + tsum (percept out.2.1.2 (interpolate (value x) (shape2 out.2.1.2)))
       + tsum (percept out.2.2 (interpolate cropped (shape2 out.2.2))))%Q
      (Tensor4 x) net ∧
    g' = (rand_like out.1 (randint 0 3 g).2).2.
Proof.
  unfold train_d. cbn [String.eqb Ascii.eqb Bool.eqb].
  destruct (randint 0 3 g) as [part g1] eqn:Hr. cbn [fst snd].
  destruct (netD_real net (Tensor4 x) part) as [pred [[rec_all rec_small] rec_part]].
  cbn [fst snd].
  destruct (rand_like pred g1) as [U g2] eqn:HU. cbn [fst snd].
  destruct (crop_image_by_part (value x) part) as [cropped|]; [|done].
  intros [= <- <- <-]. by exists cropped.
Qed.

Lemma train_d_fake_eq (net : module) (data : batch) (g : rng) :
  train_d net data "fake" g
  = Ok (FakeResult (tmean (netD_fake net data)),
        backward (hinge_fake (rand_like (netD_fake net data) g).1
                             (netD_fake net data)) data net,
        (rand_like (netD_fake net data) g).2).
Proof. reflexivity. Qed.

Lemma Qopp_opp_eq (q : Q) : (- - q)%Q = q.
Proof. destruct q as [n d]. unfold Qopp. cbn. by rewrite Z.opp_involutive. Qed.

Lemma existsb_requires_grad (n : nat) (outs : list (t4 Q)) :
  existsb requires_grad
    (augmented n ((λ x, {| value := x; requires_grad := true |}) <$> outs))
  = negb (bool_decide (outs = [])).
Proof. by destruct outs. Qed.

(** X1.  Each optimizer steps on gradients of this pass only.  The
    discriminator's gradient is cleared at the start, so [optimizerD.step()]
    sees exactly the two [backward()] calls of [train_d], on the real and
    on the detached fake batch, neither of which reaches the generator;
    the generator's gradient is cleared before [err_g.backward()], so
    [optimizerG.step()] sees that one call.  The same call also adds to
    the discriminator's gradient, which therefore ends the pass with
    three entries.  Buffers are not touched. *)
Theorem optimizer_steps_see_fresh_gradients (a : args) (iteration : Z)
    (s s' : train_state) :
  train_iteration a iteration s = Ok (tt, s') →
  ∃ (loss_real loss_fake loss_g : Q),
    let seenD :=
      {| parameters := parameters (netD s); buffers := buffers (netD s);
         grad := [ {| loss_value := loss_real; reaches_generator := false |};
                   {| loss_value := loss_fake; reaches_generator := false |} ] |} in
    let seenG :=
      {| parameters := parameters (netG s); buffers := buffers (netG s);
         grad := [ {| loss_value := loss_g;
                      reaches_generator :=
                        negb (bool_decide
                          (netG_forward (netG s)
                             (normal_ (length (next_batch (batches_drawn s))) nz
                                      (gen s)).1 = [])) |} ] |} in
    optim_step (optimizerD s) seenD = (optimizerD s', parameters (netD s')) ∧
    optim_step (optimizerG s) seenG = (optimizerG s', parameters (netG s')) ∧
    grad (netD s') = grad seenD ++ grad seenG ∧
    grad (netG s') = grad seenG ∧
    buffers (netD s') = buffers (netD s) ∧
    buffers (netG s') = buffers (netG s).
Proof.
  intros Hrun. apply train_iteration_full in Hrun.
  destruct Hrun as (err_dr & rec_all & rec_small & rec_part & netD1 & g1 & r2
    & netD2 & g2 & netD3 & err_g & netG1 & Hd1 & Hd2 & HnetD3 & _ & HnetG1
    & HnetD & HnetG & HoptD & HoptG & _).
  apply train_d_backward in Hd1 as (e1 & ->).
  apply train_d_backward in Hd2 as (e2 & ->).
  exists e1, e2, err_g. cbv zeta.
  rewrite HnetD, HnetG, HoptD, HoptG, HnetG1, HnetD3.
  unfold backward, zero_grad.
  cbn [parameters buffers grad batch_requires_grad requires_grad app].
  rewrite !existsb_detach, existsb_requires_grad.
  split_and!; try reflexivity; apply surjective_pairing.
Qed.

End LoopFull.

Section Run.
Context `{Collaborators}.

(** X2.  A pass prints one progress line when the iteration is a
    multiple of 1000 (iteration 0 included) and none otherwise.  The
    number printed as [loss d] is the mean of the discriminator's
    prediction on the real batch, as [train_d] returns it, not a loss;
    the number printed as [loss g] is [-err_g], the mean prediction on
    the fake images of the discriminator that [optimizerD.step()] has
    left. *)
Theorem progress_line_values (a : args) (iteration : Z) (s s' : train_state) :
  train_iteration a iteration s = Ok (tt, s') →
  ∃ (new : list event) (real : batch) (part : Z) (netD3 : module)
    (fakes : list var),
    trace s' = trace s ++ new ∧
    EvTrainD "real" real ∈ new ∧
    (0 ≤ part ≤ 3)%Z ∧
    List.filter is_print new =
      (if (iteration `mod` 1000 =? 0)%Z
       then [EvPrint iteration
               (tmean (netD_real (zero_grad (netD s)) real part).1)
               (tmean (netD_fake netD3 (TensorList fakes)))]
       else []) ∧
    parameters netD3 = parameters (netD s') ∧
    buffers netD3 = buffers (netD s') ∧
    Forall (λ x, requires_grad x = true) fakes.
Proof.
  intros Hrun. apply train_iteration_full in Hrun.
  destruct Hrun as (err_dr & rec_all & rec_small & rec_part & netD1 & g1 & r2
    & netD2 & g2 & netD3 & err_g & netG1 & Hd1 & Hd2 & HnetD3 & Herr & HnetG1
    & HnetD & _ & _ & _ & _ & _ & _ & _ & Htrace & _).
  apply train_d_real_inv in Hd1 as (cropped & _ & Hr & _ & _).
  injection Hr as -> _ _ _.
  subst err_g. rewrite Qopp_opp_eq in Htrace. unfold save_interval in Htrace.
  eexists _, _, _, netD3, _. split; [exact Htrace|].
  split; [apply elem_of_cons; right; apply elem_of_cons; by left|].
  split; [|split].
  2: { rewrite !List.filter_app.
       destruct (iteration `mod` 1000 =? 0)%Z;
         destruct (checkpoint_due a iteration); reflexivity. }
  - pose proof (Z.mod_pos_bound (randint_draws (gen s) (randint_pos (gen s))) 4).
    change (3 - 0 + 1)%Z with 4%Z. lia.
  - rewrite HnetD. split_and!; try done.
    apply Forall_forall. intros x (k & y & -> & Hy)%elem_of_lookup_imap.
    apply list_lookup_fmap_Some in Hy as (z & -> & _). done.
Qed.

Lemma load_checkpoint_frame (checkpoint : string) (u : unit) (s s' : train_state) :
  load_checkpoint checkpoint s = Ok (u, s') →
  trace s' = trace s ∧ files s' = files s ∧ gen s' = gen s ∧
  batches_drawn s' = batches_drawn s ∧ augment_calls s' = augment_calls s.
Proof.
  unfold load_checkpoint, load_weights, load_optimizer, getitem.
  unfold bind, read, modify, ret, raise.
  intros Hrun. repeat (case_match; simplify_eq/=; try done).
Qed.

(** [train] is the loop run from the state that the set-up leaves. *)
Lemma train_Ok_inv (a : args) (s s' : train_state) :
  train a s = Ok (tt, s') →
  ∃ s0 : train_state,
    trace s0 = trace s ∧ files s0 = files s ∧ gen s0 = gen s ∧
    batches_drawn s0 = batches_drawn s ∧ augment_calls s0 = augment_calls s ∧
    (ckpt a = None → s0 = set_avg_param_G (copy_G_params (netG s)) s) ∧
    for_each (range (start_iter a) (iter a + 1)) (train_iteration a) s0
      = Ok (tt, s').
Proof.
  unfold train. intros Hrun.
  apply bind_Ok in Hrun as (? & ? & [= <- <-] & Hrun).
  apply bind_Ok in Hrun as ([] & s1 & [= <-] & Hrun).
  apply bind_Ok in Hrun as (u & s0 & Hload & Hrun).
  exists s0. destruct (ckpt a) as [checkpoint|].
  - apply load_checkpoint_frame in Hload as (? & ? & ? & ? & ?).
    split_and!; done.
  - injection Hload as _ <-. split_and!; done.
Qed.

Lemma range_nil (lo hi : Z) : (hi ≤ lo)%Z → range lo hi = [].
Proof. intros Hle. unfold range. by replace (Z.to_nat (hi - lo)) with 0 by lia. Qed.

Lemma range_snoc (lo hi : Z) : (lo ≤ hi)%Z → range lo (hi + 1) = range lo hi ++ [hi].
Proof.
  intros Hle. unfold range.
  replace (Z.to_nat (hi + 1 - lo)) with (Z.to_nat (hi - lo) + 1) by lia.
  rewrite seq_app, fmap_app. cbn. do 2 f_equal. lia.
Qed.

Lemma length_range (lo hi : Z) : length (range lo hi) = Z.to_nat (hi - lo).
Proof. unfold range. by rewrite length_fmap, length_seq. Qed.

Lemma for_each_app {A} (xs ys : list A) (body : A → M unit) (s s' : train_state) :
  for_each (xs ++ ys) body s = Ok (tt, s') →
  ∃ s1, for_each xs body s = Ok (tt, s1) ∧ for_each ys body s1 = Ok (tt, s').
Proof.
  revert s. induction xs as [|x xs IH]; intros s Hrun.
  - by exists s.
  - cbn in Hrun. apply bind_Ok in Hrun as ([] & s1 & Hx & Hrest).
    apply IH in Hrest as (s2 & Hxs & Hys).
    exists s2. split; [|done]. cbn. unfold bind. by rewrite Hx.
Qed.

Lemma train_iteration_randint (a : args) (iteration : Z) (s s' : train_state) :
  train_iteration a iteration s = Ok (tt, s') →
  batches_drawn s' = S (batches_drawn s) ∧
  augment_calls s' =
    S (augment_calls s) +
    length (netG_forward (netG s)
              (normal_ (length (next_batch (batches_drawn s))) nz (gen s)).1) ∧
  randint_pos (gen s') = S (randint_pos (gen s)) ∧
  randint_draws (gen s') = randint_draws (gen s) ∧
  normal_pos (gen s') =
    normal_pos (gen s) + length (next_batch (batches_drawn s)) * nz ∧
  normal_draws (gen s') = normal_draws (gen s) ∧
  uniform_draws (gen s') = uniform_draws (gen s) ∧
  uniform_pos (gen s) ≤ uniform_pos (gen s').
Proof.
  intros Hrun. apply train_iteration_full in Hrun.
  destruct Hrun as (err_dr & rec_all & rec_small & rec_part & netD1 & g1 & r2
    & netD2 & g2 & netD3 & err_g & netG1 & Hd1 & Hd2 & _ & _ & _
    & _ & _ & _ & _ & _ & Hgen & Hb & Haug & _).
  apply train_d_real_inv in Hd1 as (cropped & _ & _ & _ & ->).
  rewrite train_d_fake_eq in Hd2. injection Hd2 as _ _ <-.
  rewrite Hgen. unfold rand_like, randint, normal_.
  cbn [fst snd randint_pos randint_draws normal_pos normal_draws uniform_pos
       uniform_draws].
  split_and!; try done; lia.
Qed.

Lemma for_each_counts (a : args) (xs : list Z) (s s' : train_state) :
  for_each xs (train_iteration a) s = Ok (tt, s') →
  batches_drawn s' = batches_drawn s + length xs ∧
  randint_pos (gen s') = randint_pos (gen s) + length xs.
Proof.
  revert s. induction xs as [|x xs IH]; intros s Hrun.
  - injection Hrun as <-. cbn. lia.
  - cbn in Hrun. apply bind_Ok in Hrun as ([] & s1 & Hx & Hrest).
    apply train_iteration_randint in Hx as (Hb1 & _ & Hr1 & _).
    apply IH in Hrest as [-> ->]. cbn [length]. lia.
Qed.

Lemma for_each_files (a : args) (xs : list Z) (s s' : train_state) :
  for_each xs (train_iteration a) s = Ok (tt, s') →
  (∀ path, path ≠ checkpoint_file a → files s' !! path = files s !! path) ∧
  (Forall (λ x, checkpoint_due a x = false) xs → files s' = files s).
Proof.
  revert s. induction xs as [|x xs IH]; intros s Hrun.
  - by injection Hrun as <-.
  - cbn in Hrun. apply bind_Ok in Hrun as ([] & s1 & Hx & Hrest).
    apply train_iteration_summary in Hx as (? & ? & ? & ? & _ & _ & _ & Hf).
    apply IH in Hrest as [Hother Hnone]. split.
    + intros path Hne. rewrite (Hother path Hne), Hf.
      destruct (checkpoint_due a x); [by rewrite lookup_insert_ne|done].
    + intros [Hx Hxs]%Forall_cons. rewrite (Hnone Hxs), Hf. by rewrite Hx.
Qed.

(** X3.  One pass takes one batch from the loader, one quadrant index
    from [random], [B * 256] values from the normal sampler for the
    noise, and calls [DiffAugment] once for the real batch and once for
    each generator output.  A whole run makes
    [total_iterations + 1 - start_iter] passes (none when that is
    negative), and with no checkpoint to load and no pass to make it
    changes nothing but the shadow, which it sets to a copy of the
    generator's parameters. *)
Theorem iteration_draws :
  (∀ (a : args) (iteration : Z) (s s' : train_state),
     train_iteration a iteration s = Ok (tt, s') →
     batches_drawn s' = S (batches_drawn s) ∧
     augment_calls s' =
       S (augment_calls s) +
       length (netG_forward (netG s)
                 (normal_ (length (next_batch (batches_drawn s))) nz (gen s)).1) ∧
     randint_pos (gen s') = S (randint_pos (gen s)) ∧
     normal_pos (gen s') =
       normal_pos (gen s) + length (next_batch (batches_drawn s)) * nz ∧
     uniform_pos (gen s) ≤ uniform_pos (gen s')) ∧
  (∀ (a : args) (s s' : train_state),
     train a s = Ok (tt, s') →
     let passes := Z.to_nat (iter a + 1 - start_iter a) in
     batches_drawn s' = batches_drawn s + passes ∧
     randint_pos (gen s') = randint_pos (gen s) + passes ∧
     (ckpt a = None → (iter a < start_iter a)%Z →
      s' = set_avg_param_G (copy_G_params (netG s)) s)).
Proof.
  split.
  - intros a iteration s s' Hrun.
    apply train_iteration_randint in Hrun.
    destruct Hrun as (? & ? & ? & _ & ? & _ & _ & ?). done.
  - intros a s s' Hrun passes.
    apply train_Ok_inv in Hrun as (s0 & _ & _ & Hg & Hb & _ & Hinit & Hrun).
    pose proof (for_each_counts _ _ _ _ Hrun) as [Hb' Hg'].
    rewrite length_range in Hb', Hg'. rewrite Hb in Hb'. rewrite Hg in Hg'.
    split_and!; try done.
    intros Hck Hlt. rewrite range_nil in Hrun by lia.
    injection Hrun as <-. by apply Hinit.
Qed.

(** A run that reaches its last iteration is the earlier passes
    followed by the pass of that iteration. *)
Lemma train_last_pass (a : args) (s s' : train_state) :
  train a s = Ok (tt, s') → (start_iter a ≤ iter a)%Z →
  ∃ s0 s1 : train_state,
    trace s0 = trace s ∧
    for_each (range (start_iter a) (iter a)) (train_iteration a) s0
      = Ok (tt, s1) ∧
    train_iteration a (iter a) s1 = Ok (tt, s').
Proof.
  intros Hrun Hle.
  apply train_Ok_inv in Hrun as (s0 & Ht & _ & _ & _ & _ & _ & Hrun).
  rewrite range_snoc in Hrun by done.
  apply for_each_app in Hrun as (s1 & Hfirst & Hlast).
  cbn in Hlast. apply bind_Ok in Hlast as ([] & s2 & Hlast & [= <-]).
  by exists s0, s1.
Qed.

(** X4.  When a run makes its last pass at a positive
    [total_iterations], the file it leaves at
    [saved_model_folder/model_name] holds the state the run ends in, and
    writing it is the last thing the run does. *)
Theorem final_checkpoint_is_final_state (a : args) (s s' : train_state) :
  train a s = Ok (tt, s') →
  (0 < iter a)%Z → (start_iter a ≤ iter a)%Z →
  files s' !! checkpoint_file a = Some (checkpoint_record s') ∧
  (∃ new, trace s' = trace s ++ new ∧
          last new = Some (EvTorchSave (checkpoint_file a) (iter a))).
Proof.
  intros Hrun Hpos Hle.
  apply train_last_pass in Hrun as (s0 & s1 & Ht & Hfirst & Hlast); [|done].
  assert (checkpoint_due a (iter a) = true) as Hdue.
  { apply checkpoint_due_spec. lia. }
  apply for_each_saves in Hfirst as (new1 & Ht1 & _).
  apply train_iteration_summary in Hlast
    as (? & ? & ? & ? & Ht2 & _ & _ & Hf).
  rewrite Hdue in Hf, Ht2. split.
  - rewrite Hf. apply lookup_insert_eq.
  - eexists. split.
    + rewrite Ht2, Ht1, Ht, <-!(assoc_L (++)). reflexivity.
    + rewrite !(assoc_L (++)). apply last_snoc.
Qed.

(** X5.  A run leaves every file other than
    [saved_model_folder/model_name] as it found it, and writes nothing
    at all unless [0 < total_iterations] and
    [start_iter <= total_iterations]. *)
Theorem train_writes_one_path (a : args) (s s' : train_state) :
  train a s = Ok (tt, s') →
  (∀ path, path ≠ checkpoint_file a → files s' !! path = files s !! path) ∧
  (¬ (0 < iter a ∧ start_iter a ≤ iter a)%Z → files s' = files s).
Proof.
  intros Hrun.
  apply train_Ok_inv in Hrun as (s0 & _ & Hf & _ & _ & _ & _ & Hrun).
  apply for_each_files in Hrun as [Hother Hnone]. rewrite Hf in Hother, Hnone.
  split; [done|]. intros Hno. apply Hnone.
  apply Forall_forall. intros x Hx%elem_of_range.
  apply not_true_is_false. intros Hdue%checkpoint_due_spec. lia.
Qed.

End Run.

(** ** Stripping and looking up keys *)

Lemma strip_module_snoc (sd : list (string * tensor)) (kv : string * tensor) :
  strip_module (sd ++ [kv])
  = <[remove_all "module." 0 kv.1 := kv.2]> (strip_module sd).
Proof. unfold strip_module. by rewrite foldl_app. Qed.


Lemma strip_module_lookup (sd : list (string * tensor)) (k : string) (v : tensor) :
  NoDup ((λ kv, remove_all "module." 0 kv.1) <$> sd) →
  (k, v) ∈ sd →
  strip_module sd !! remove_all "module." 0 k = Some v.
Proof.
  induction sd as [|kv sd IH] using rev_ind; intros Hnd Hin.
  - by apply elem_of_nil in Hin.
  - rewrite strip_module_snoc. rewrite fmap_app in Hnd.
    apply NoDup_app in Hnd as (Hnd & Hfresh & _).
    apply elem_of_app in Hin as [Hin|Hin].
    + rewrite lookup_insert_ne; [by apply IH|].
      intros Heq. apply (Hfresh (remove_all "module." 0 k)).
      * apply list_elem_of_fmap. by exists (k, v).
      * rewrite <-Heq. cbn. by left.
    + apply list_elem_of_singleton in Hin as <-. apply lookup_insert_eq.
Qed.

Lemma plain_names_keys (net : module) :
  plain_names net →
  (λ kv : string * tensor, remove_all "module." 0 kv.1) <$> state_dict net
  = (state_dict net).*1.
Proof.
  intros [_ Hplain]. rewrite Forall_forall in Hplain.
  apply list_fmap_ext. intros i kv Hkv. cbn. apply Hplain.
  apply list_elem_of_fmap. exists kv. split; [done|].
  by eapply list_elem_of_lookup_2.
Qed.

Lemma strip_module_plain (net : module) (e : string * tensor) :
  plain_names net → e ∈ state_dict net →
  strip_module (state_dict net) !! e.1 = Some e.2.
Proof.
  intros Hplain Hin. pose proof (plain_names_keys _ Hplain) as Hkeys.
  destruct Hplain as [Hnd Hplain]. rewrite Forall_forall in Hplain.
  assert (remove_all "module." 0 e.1 = e.1) as Hk.
  { apply Hplain. apply list_elem_of_fmap. by exists e. }
  rewrite <-Hk. apply strip_module_lookup.
  - by rewrite Hkeys.
  - by destruct e.
Qed.


Lemma loaded_value_round_trip (m : gmap string tensor)
    (l0 l : list (string * tensor)) :
  Forall2 (λ e0 e : string * tensor, e0.1 = e.1 ∧ length e0.2 = length e.2) l0 l →
  (∀ e, e ∈ l → m !! e.1 = Some e.2) →
  loaded_value m <$> l0 = l ∧ Forall (size_matches m) l0.
Proof.
  induction 1 as [|e0 e l0 l [Hk Hl] _ IH]; intros Hm; [done|].
  destruct IH as [IH1 IH2].
  { intros e' He'. apply Hm. by right. }
  pose proof (Hm e ltac:(by left)) as He.
  split.
  - cbn. rewrite IH1. f_equal. unfold loaded_value. rewrite Hk, He.
    by destruct e.
  - constructor; [|done]. intros v Hv. rewrite Hk, He in Hv.
    by injection Hv as <-.
Qed.


(** A state dict loads back into a network of the same architecture. *)
Lemma load_state_dict_round_trip (net0 net : module) :
  same_layout net0 net → plain_names net →
  load_state_dict net0 (strip_module (state_dict net))
  = Ok {| parameters := parameters net; buffers := buffers net;
          grad := grad net0 |}.
Proof.
  intros [Hp Hb] Hplain.
  destruct (loaded_value_round_trip (strip_module (state_dict net)) _ _ Hp)
    as [Hp1 Hp2].
  { intros e He. apply strip_module_plain; [done|].
    unfold state_dict. apply elem_of_app. by left. }
  destruct (loaded_value_round_trip (strip_module (state_dict net)) _ _ Hb)
    as [Hb1 Hb2].
  { intros e He. apply strip_module_plain; [done|].
    unfold state_dict. apply elem_of_app. by right. }
  rewrite load_state_dict_fits.
  - by rewrite Hp1, Hb1.
  - unfold state_dict at 2. by apply Forall_app.
Qed.







Section Resume.
Context `{Collaborators}.

(** X6.  Save, then resume.  Loading a record written by the
    checkpoint branch into networks of the same architecture, whose
    names are pairwise distinct and free of ['module.'], succeeds when
    the optimizers accept their states: parameters and buffers of both
    networks and the shadow become the saved ones, the optimizers become
    what their [load_state_dict] returns, and the gradients stay as they
    were. *)
Theorem resume_restores_checkpoint (path : string) (s0 s : train_state)
    (og' od' : optimizer) :
  files s0 !! path = Some (checkpoint_record s) →
  same_layout (netG s0) (netG s) → plain_names (netG s) →
  same_layout (netD s0) (netD s) → plain_names (netD s) →
  optim_load_state_dict (optimizerG s0) (optimizerG s) = Some og' →
  optim_load_state_dict (optimizerD s0) (optimizerD s) = Some od' →
  ∃ s1 : train_state,
    load_checkpoint path s0 = Ok (tt, s1) ∧
    parameters (netG s1) = parameters (netG s) ∧
    buffers (netG s1) = buffers (netG s) ∧
    parameters (netD s1) = parameters (netD s) ∧
    buffers (netD s1) = buffers (netD s) ∧
    avg_param_G s1 = avg_param_G s ∧
    optimizerG s1 = og' ∧
    optimizerD s1 = od' ∧
    grad (netG s1) = grad (netG s0) ∧
    grad (netD s1) = grad (netD s0).
Proof.
  intros Hf HlG HpG HlD HpD HoG HoD.
  erewrite load_checkpoint_eq; [|exact Hf|reflexivity..].
  rewrite (load_state_dict_round_trip _ _ HlG HpG).
  rewrite (load_state_dict_round_trip _ _ HlD HpD).
  rewrite HoG, HoD. eexists. split; [reflexivity|]. done.
Qed.




End Resume.

(** ** The generated images *)

Lemma string_length_app (s1 s2 : string) :
  String.length (s1 +:+ s2) = String.length s1 + String.length s2.
Proof.
  induction s1 as [|c s1 IH]; [done|].
  change (S (String.length (s1 +:+ s2))
          = S (String.length s1 + String.length s2)).
  by rewrite IH.
Qed.

Lemma string_app_inj_r (s1 s2 t : string) : s1 +:+ t = s2 +:+ t → s1 = s2.
Proof.
  revert s2. induction s1 as [|c s1 IH]; intros [|d s2] Heq; [done| | |].
  - apply (f_equal String.length) in Heq.
    rewrite !string_length_app in Heq. cbn in Heq. lia.
  - apply (f_equal String.length) in Heq.
    rewrite !string_length_app in Heq. cbn in Heq. lia.
  - change (String c (s1 +:+ t) = String d (s2 +:+ t)) in Heq.
    injection Heq as -> Heq. f_equal. by apply IH.
Qed.

Lemma image_file_inj (images_path : string) : Inj (=) (=) (image_file images_path).
Proof.
  intros i j Heq. unfold image_file in Heq.
  do 4 apply (inj (String.app _)) in Heq.
  apply string_app_inj_r in Heq. by apply (inj pretty) in Heq.
Qed.

Lemma concat_fmap_fmap {X Y} (f : X → Y) (ls : list (list X)) :
  concat ((λ l : list X, f <$> l) <$> ls) = f <$> concat ls.
Proof.
  induction ls as [|l ls IH]; [done|]. cbn. by rewrite IH, fmap_app.
Qed.

Lemma pixels_map4 {X Y} (f : X → Y) (image : t4 X) :
  pixels (map4 f image) = f <$> pixels image.
Proof.
  unfold pixels, map4.
  rewrite <-concat_fmap_fmap, <-!list_fmap_compose. f_equal.
  apply list_fmap_ext. intros _ sample _. cbn.
  rewrite <-concat_fmap_fmap, <-!list_fmap_compose. f_equal.
  apply list_fmap_ext. intros _ plane _. cbn.
  by rewrite concat_fmap_fmap.
Qed.

Section Images.
Context `{Collaborators}.

Lemma generate_images_Returns (a : args) (images_path : string)
    (netG0 netD0 : module) (fs : gmap string (gmap string pickled)) (g : rng)
    (calls : list (string * image3)) (g' : rng) :
  generate_images a images_path netG0 netD0 fs g = Returns (calls, g') →
  ∃ (net_g : module) (big : t4 Q) (rest : list (t4 Q)),
    netG_forward net_g (normal_ 25 nz g).1 = big :: rest ∧
    calls = imap (λ i val, (image_file images_path i, val))
                 (map4 (λ x, (x + 1) * 0.5)%Q big) ∧
    g' = (normal_ 25 nz g).2.
Proof.
  unfold generate_images. intros Hrun.
  destruct (fs !! _) as [ck|]; [|done].
  destruct (load_weights_strict ck "g" netG0) as [net_g|]; [|done].
  destruct (load_weights_strict ck "d" netD0) as [net_d|]; [|done].
  destruct (normal_ 25 nz g) as [noise g1].
  destruct (netG_forward net_g noise) as [|big rest] eqn:Hout; [done|].
  injection Hrun as <- <-. by exists net_g, big, rest.
Qed.

(** X9.  When [generate_images] returns, it has called [save_image]
    once per sample of the generator's first output for a [25 x 256]
    noise tensor.  The paths are
    [images_path/image_<built-in function iter>_i.jpg] for [i] from 0
    on, pairwise distinct; the values handed over are [(x + 1) * 0.5],
    which lie in [[0, 1]] when the generator's lie in [[-1, 1]]. *)
Theorem generated_files_are_numbered (a : args) (images_path : string)
    (netG0 netD0 : module) (fs : gmap string (gmap string pickled)) (g : rng)
    (calls : list (string * image3)) (g' : rng) :
  generate_images a images_path netG0 netD0 fs g = Returns (calls, g') →
  ∃ (net_g : module) (big : t4 Q) (rest : list (t4 Q)),
    netG_forward net_g (normal_ 25 nz g).1 = big :: rest ∧
    length (normal_ 25 nz g).1 = 25 ∧
    Forall (λ row, length row = 256) (normal_ 25 nz g).1 ∧
    length calls = length big ∧
    calls.*1 =
      (λ i, images_path +:+ "/image_<built-in function iter>_" +:+ pretty i
            +:+ ".jpg") <$> seq 0 (length big) ∧
    NoDup calls.*1 ∧
    calls.*2 = map4 (λ x, (x + 1) * 0.5)%Q big ∧
    (Forall (λ x, - (1) <= x ∧ x <= 1)%Q (pixels big) →
     Forall (λ y, 0 <= y ∧ y <= 1)%Q (pixels calls.*2)).
Proof.
  intros (net_g & big & rest & Hout & -> & ->)%generate_images_Returns.
  exists net_g, big, rest. split; [done|].
  assert ((imap (λ i (val : image3), (image_file images_path i, val))
                (map4 (λ x, (x + 1) * 0.5)%Q big)).*1
          = image_file images_path <$> seq 0 (length big)) as Hnames.
  { rewrite fmap_imap.
    rewrite (imap_ext _ (λ i _, image_file images_path i)) by done.
    rewrite imap_seq_0. unfold map4. by rewrite length_fmap. }
  assert ((imap (λ i (val : image3), (image_file images_path i, val))
                (map4 (λ x, (x + 1) * 0.5)%Q big)).*2
          = map4 (λ x, (x + 1) * 0.5)%Q big) as Hvals.
  { rewrite fmap_imap.
    rewrite (imap_ext _ (λ _ val, val)) by done. apply imap_snd_id. }
  split_and!.
  - unfold normal_. cbn [fst]. by rewrite length_fmap, length_seq.
  - unfold normal_. cbn [fst]. apply Forall_fmap, Forall_forall.
    intros r _. unfold compose. cbv beta. by rewrite length_fmap, length_seq.
  - rewrite length_imap. unfold map4. by rewrite length_fmap.
  - exact Hnames.
  - rewrite Hnames. apply NoDup_fmap_2; [apply image_file_inj|apply NoDup_seq].
  - exact Hvals.
  - intros Hrange. rewrite Hvals, pixels_map4. apply Forall_fmap.
    eapply Forall_impl; [exact Hrange|]. intros x [Hlo Hhi]. cbn.
    split; lra.
Qed.

End Images.

Section DoGenAi.
Context `{Collaborators}.




End DoGenAi.

(** ** The size of the hinge terms *)












Section Hinge.
Context `{Collaborators}.


End Hinge.

(** ** More on the EMA update *)






(** ** Which keys the strip changes *)

Lemma prefix_app (p k : string) :
  String.prefix p k = true ↔ ∃ post, k = p +:+ post.
Proof.
  revert k. induction p as [|c p IH]; intros k.
  - split; [|by destruct k]. intros _. by exists k.
  - destruct k as [|d k]; cbn.
    + split; [done|]. by intros [post ?].
    + destruct (Ascii.ascii_dec c d) as [->|Hne].
      * rewrite IH. split; intros [post Hpost]; exists post.
        -- by rewrite Hpost.
        -- change (String d k = String d (p +:+ post)) in Hpost.
           by injection Hpost.
      * split; [done|]. intros [post Hpost].
        change (String d k = String c (p +:+ post)) in Hpost.
        by injection Hpost as -> _.
Qed.

Lemma remove_all_length (pat : string) (skip : nat) (k : string) :
  String.length (remove_all pat skip k) ≤ String.length k.
Proof.
  revert skip. induction k as [|c k IH]; intros skip; [done|].
  cbn [remove_all]. destruct skip as [|n].
  - destruct (String.prefix pat (String c k)).
    + etrans; [apply IH|]. cbn. lia.
    + cbn. specialize (IH 0). lia.
  - etrans; [apply IH|]. cbn. lia.
Qed.

(** X15.  [k.replace('module.', '')] returns [k] itself exactly when
    ['module.'] does not occur in [k]; it drops a leading ['module.'],
    and never makes a key longer.  A key such as ['submodule.w'] is
    therefore renamed by the loads of lines 118-119 and 199-200. *)
Theorem strip_keeps_exactly_the_keys_without_module (k : string) :
  (remove_all "module." 0 k = k ↔
   ¬ ∃ pre post : string, k = pre +:+ "module." +:+ post) ∧
  (∀ post, remove_all "module." 0 ("module." +:+ post)
           = remove_all "module." 0 post) ∧
  String.length (remove_all "module." 0 k) ≤ String.length k.
Proof.
  split; [|split; [intros post; apply remove_module_prefix
                  |apply remove_all_length]].
  induction k as [|c k IH].
  - split; [|done]. intros _ (pre & post & Heq).
    apply (f_equal String.length) in Heq.
    rewrite !string_length_app in Heq. cbn in Heq. lia.
  - cbn [remove_all].
    destruct (String.prefix "module." (String c k)) eqn:Hpre.
    + split.
      * intros Heq. apply (f_equal String.length) in Heq.
        pose proof (remove_all_length "module." 6 k). cbn in Heq, H. lia.
      * intros Hno. destruct Hno.
        apply prefix_app in Hpre as [post Hpost]. by exists "", post.
    + split.
      * intros [= Heq]. apply IH in Heq.
        intros ([|d pre] & post & Hocc).
        -- assert (String.prefix "module." (String c k) = true) as Hyes
             by (apply prefix_app; by exists post).
           by rewrite Hpre in Hyes.
        -- change (String c k = String d (pre +:+ "module." +:+ post)) in Hocc.
           injection Hocc as -> ->. apply Heq. by exists pre, post.
      * intros Hno. f_equal. apply IH.
        intros (pre & post & ->). apply Hno. by exists (String c pre), post.
Qed.

(** ** Crops of any rectangle *)

Lemma elem_of_drop_lookup {X} (x : X) (n : nat) (l : list X) :
  x ∈ drop n l ↔ ∃ i, l !! i = Some x ∧ n ≤ i.
Proof.
  rewrite list_elem_of_lookup. split.
  - intros [i Hi]. rewrite lookup_drop in Hi. exists (n + i). split; [done|lia].
  - intros (i & Hi & Hle). exists (i - n). rewrite lookup_drop.
    by replace (n + (i - n)) with i by lia.
Qed.

Lemma elem_of_concat_fmap {X Y} (f : X → list Y) (l : list X) (y : Y) :
  y ∈ concat (f <$> l) ↔ ∃ x, x ∈ l ∧ y ∈ f x.
Proof.
  rewrite list_elem_of_In, in_concat. split.
  - intros (ys & Hys & Hy).
    apply list_elem_of_In in Hys.
    apply list_elem_of_fmap in Hys as (x & -> & Hx).
    exists x. split; [done|by apply list_elem_of_In].
  - intros (x & Hx & Hy). exists (f x). split; [|by apply list_elem_of_In].
    apply list_elem_of_In, list_elem_of_fmap. by exists x.
Qed.

Lemma elem_of_pixels_slice_hw {X} (r : list (list X) → list (list X))
    (c : list X → list X) (image : t4 X) (y : X) :
  y ∈ pixels (slice_hw r c image) ↔
  ∃ sample plane row,
    sample ∈ image ∧ plane ∈ sample ∧ row ∈ r plane ∧ y ∈ c row.
Proof.
  rewrite pixels_slice_hw, elem_of_concat_fmap. split.
  - intros (sample & Hs & (plane & Hp & (row & Hr & Hy)%elem_of_concat_fmap)%elem_of_concat_fmap).
    by exists sample, plane, row.
  - intros (sample & plane & row & Hs & Hp & Hr & Hy).
    exists sample. split; [done|]. apply elem_of_concat_fmap.
    exists plane. split; [done|]. apply elem_of_concat_fmap.
    by exists row.
Qed.

Lemma elem_of_pixels {X} (image : t4 X) (y : X) :
  y ∈ pixels image ↔
  ∃ sample plane row, sample ∈ image ∧ plane ∈ sample ∧ row ∈ plane ∧ y ∈ row.
Proof.
  unfold pixels. rewrite elem_of_concat_fmap. split.
  - intros (sample & Hs & (plane & Hp & Hy)%elem_of_concat_fmap).
    rewrite <-(list_fmap_id plane) in Hy.
    apply elem_of_concat_fmap in Hy as (row & Hr & Hy).
    by exists sample, plane, row.
  - intros (sample & plane & row & Hs & Hp & Hr & Hy).
    exists sample. split; [done|]. apply elem_of_concat_fmap.
    exists plane. split; [done|].
    rewrite <-(list_fmap_id plane). apply elem_of_concat_fmap. by exists row.
Qed.

(** In a labelled image an entry's row and column labels are its
    indices in its plane. *)
Lemma label_positions {X} (image : t4 X) sample plane row (i j : nat) y :
  sample ∈ label image → plane ∈ sample →
  plane !! i = Some row → row !! j = Some y →
  pos_i y = i ∧ pos_j y = j.
Proof.
  unfold label.
  intros (b & sample0 & -> & _)%elem_of_lookup_imap.
  intros (c & plane0 & -> & _)%elem_of_lookup_imap Hrow Hy.
  rewrite list_lookup_imap in Hrow.
  destruct (plane0 !! i) as [row0|]; simplify_eq/=.
  rewrite list_lookup_imap in Hy.
  destruct (row0 !! j) as [x|]; simplify_eq/=. done.
Qed.

Lemma elem_of_quadrant {X} (image : t4 X) (hw : nat) (top left : bool)
    (y : nat * nat * nat * nat * X) :
  y ∈ pixels (slice_hw (if top then take hw else drop hw)
                        (if left then take hw else drop hw) (label image)) ↔
  y ∈ pixels (label image) ∧
  (if top then pos_i y < hw else hw ≤ pos_i y) ∧
  (if left then pos_j y < hw else hw ≤ pos_j y).
Proof.
  rewrite elem_of_pixels_slice_hw, elem_of_pixels. split.
  - intros (sample & plane & row & Hs & Hp & Hr & Hy).
    assert (∃ i, plane !! i = Some row ∧ if top then i < hw else hw ≤ i)
      as (i & Hi & Htop).
    { destruct top; [by apply elem_of_take|by apply elem_of_drop_lookup]. }
    assert (∃ j, row !! j = Some y ∧ if left then j < hw else hw ≤ j)
      as (j & Hj & Hleft).
    { destruct left; [by apply elem_of_take|by apply elem_of_drop_lookup]. }
    destruct (label_positions image sample plane row i j y Hs Hp Hi Hj)
      as [-> ->].
    split; [|done]. exists sample, plane, row.
    split_and!; try done; by eapply list_elem_of_lookup_2.
  - intros ((sample & plane & row & Hs & Hp & Hr & Hy) & Htop & Hleft).
    apply list_elem_of_lookup in Hr as [i Hi].
    apply list_elem_of_lookup in Hy as [j Hj].
    destruct (label_positions image sample plane row i j y Hs Hp Hi Hj)
      as [Hpi Hpj].
    rewrite Hpi in Htop. rewrite Hpj in Hleft.
    exists sample, plane, row. split_and!; try done.
    + destruct top; [apply elem_of_take|apply elem_of_drop_lookup]; by exists i.
    + destruct left; [apply elem_of_take|apply elem_of_drop_lookup]; by exists j.
Qed.

(** X16.  Which quadrant a part is.  With [hw = image.shape[2] // 2], an
    entry of the image lies in the crop for [part] exactly when its row
    index is below [hw] for parts 0 and 1 and at least [hw] for parts 2
    and 3, and its column index is below [hw] for parts 0 and 2 and at
    least [hw] for parts 1 and 3: top-left, top-right, bottom-left,
    bottom-right. *)
Theorem crop_selects_by_position {X} (image : t4 X) (part : Z)
    (q : t4 (nat * nat * nat * nat * X)) (y : nat * nat * nat * nat * X) :
  crop_image_by_part (label image) part = Some q →
  let hw := shape2 image / 2 in
  (crop_image_by_part image part = Some (map4 snd q)) ∧
  (y ∈ pixels q ↔
   y ∈ pixels (label image) ∧
   (if (part <? 2)%Z then pos_i y < hw else hw ≤ pos_i y) ∧
   (if Z.even part then pos_j y < hw else hw ≤ pos_j y)).
Proof.
  intros Hq hw. split.
  { rewrite <-(map4_snd_label image) at 1. by rewrite crop_map4, Hq. }
  unfold crop_image_by_part in Hq. rewrite shape2_label in Hq. fold hw in Hq.
  destruct (Z.eqb_spec part 0) as [->|?];
    [injection Hq as <-; apply (elem_of_quadrant image hw true true)|].
  destruct (Z.eqb_spec part 1) as [->|?];
    [injection Hq as <-; apply (elem_of_quadrant image hw true false)|].
  destruct (Z.eqb_spec part 2) as [->|?];
    [injection Hq as <-; apply (elem_of_quadrant image hw false true)|].
  destruct (Z.eqb_spec part 3) as [->|?];
    [injection Hq as <-; apply (elem_of_quadrant image hw false false)|].
  done.
Qed.

Lemma rectangle_quadrant_has_shape {X} (image : t4 X) B C H W (top left : bool) :
  has_shape image (B, C, H, W) →
  has_shape (slice_hw (if top then take (shape2 image / 2) else drop (shape2 image / 2))
                      (if left then take (shape2 image / 2) else drop (shape2 image / 2))
                      image)
            (B, C, (if top then H / 2 else H - H / 2),
                   (if left then (H / 2) `min` W else W - H / 2)).
Proof.
  intros Hs. eapply has_shape_slice_hw; [exact Hs|]. intros HB HC.
  rewrite (shape2_has_shape _ _ _ _ _ Hs HB HC).
  assert (H / 2 ≤ H) by (apply Nat.Div0.div_le_upper_bound; lia).
  split_and!.
  - intros plane Hl. destruct top; [rewrite length_take|rewrite length_drop]; lia.
  - intros P plane HP. destruct top; [by apply Forall_take|by apply Forall_drop].
  - intros row Hl. destruct left; [rewrite length_take|rewrite length_drop]; lia.
Qed.

(** X17.  For a rectangular image of any height [H] and width [W], odd
    or not square included, the four crops still hold every pixel
    exactly once.  Rows and columns are both split at [H // 2], so the
    crops have [H // 2] and [H - H // 2] rows, and
    [min (H // 2) W] and [W - H // 2] columns. *)
Theorem crop_of_any_rectangle {X} (image : t4 X) (B C H W : nat) :
  has_shape image (B, C, H, W) →
  ∃ q0 q1 q2 q3 : t4 (nat * nat * nat * nat * X),
    (crop_image_by_part (label image) 0 = Some q0 ∧
     crop_image_by_part (label image) 1 = Some q1 ∧
     crop_image_by_part (label image) 2 = Some q2 ∧
     crop_image_by_part (label image) 3 = Some q3) ∧
    (crop_image_by_part image 0 = Some (map4 snd q0) ∧
     crop_image_by_part image 1 = Some (map4 snd q1) ∧
     crop_image_by_part image 2 = Some (map4 snd q2) ∧
     crop_image_by_part image 3 = Some (map4 snd q3)) ∧
    (has_shape q0 (B, C, H / 2, (H / 2) `min` W) ∧
     has_shape q1 (B, C, H / 2, W - H / 2) ∧
     has_shape q2 (B, C, H - H / 2, (H / 2) `min` W) ∧
     has_shape q3 (B, C, H - H / 2, W - H / 2)) ∧
    NoDup (pixels q0 ++ pixels q1 ++ pixels q2 ++ pixels q3) ∧
    pixels q0 ++ pixels q1 ++ pixels q2 ++ pixels q3 ≡ₚ pixels (label image).
Proof.
  intros Hs. apply has_shape_label in Hs.
  set (hw := shape2 (label image) / 2).
  exists (slice_hw (take hw) (take hw) (label image)),
         (slice_hw (take hw) (drop hw) (label image)),
         (slice_hw (drop hw) (take hw) (label image)),
         (slice_hw (drop hw) (drop hw) (label image)).
  split; [done|]. split.
  { rewrite <-(map4_snd_label image) at 1 3 5 7. rewrite !crop_map4. done. }
  split.
  { split_and!.
    - apply (rectangle_quadrant_has_shape _ _ _ _ _ true true Hs).
    - apply (rectangle_quadrant_has_shape _ _ _ _ _ true false Hs).
    - apply (rectangle_quadrant_has_shape _ _ _ _ _ false true Hs).
    - apply (rectangle_quadrant_has_shape _ _ _ _ _ false false Hs). }
  pose proof (quadrants_pixels hw (label image)) as Hperm.
  split; [|done]. rewrite Hperm. apply NoDup_pixels_label.
Qed.

(** ** The further properties on concrete inputs *)

(** A run that is computed to return did not raise. *)
Ltac returned H :=
  first
    [ apply (f_equal (λ r, match r with Ok _ => true | Raise _ => false end))
        in H
    | apply (f_equal (λ r, match r with
                           | Returns _ => true
                           | Raises _ => false
                           end)) in H ];
  vm_compute in H; discriminate H.

Lemma crop_of_any_rectangle_witness :
  ∃ q0 q1 q2 q3 : t4 (nat * nat * nat * nat * Z),
    (crop_image_by_part (label [[ [[1; 2; 3]; [4; 5; 6]; [7; 8; 9]] ]]%Z) 0 = Some q0 ∧
     crop_image_by_part (label [[ [[1; 2; 3]; [4; 5; 6]; [7; 8; 9]] ]]%Z) 1 = Some q1 ∧
     crop_image_by_part (label [[ [[1; 2; 3]; [4; 5; 6]; [7; 8; 9]] ]]%Z) 2 = Some q2 ∧
     crop_image_by_part (label [[ [[1; 2; 3]; [4; 5; 6]; [7; 8; 9]] ]]%Z) 3 = Some q3) ∧
    has_shape q0 (1, 1, 1, 1) ∧ has_shape q3 (1, 1, 2, 2).
Proof.
  destruct (crop_of_any_rectangle [[ [[1; 2; 3]; [4; 5; 6]; [7; 8; 9]] ]]%Z 1 1 3 3)
    as (q0 & q1 & q2 & q3 & Hq & _ & (H0 & _ & _ & H3) & _).
  - repeat constructor.
  - exists q0, q1, q2, q3. split; [exact Hq|]. split; [exact H0|exact H3].
Defined.

Lemma crop_selects_by_position_witness :
  crop_image_by_part Toy.image 1 = Some [[ [[2%Q]] ]] ∧
  ((0, 0, 0, 1, 2%Q) ∈ pixels [[ [[(0, 0, 0, 1, 2%Q)]] ]] ↔
   (0, 0, 0, 1, 2%Q) ∈ pixels (label Toy.image) ∧ 0 < 1 ∧ 1 ≤ 1).
Proof.
  apply (crop_selects_by_position Toy.image 1 [[ [[(0, 0, 0, 1, 2%Q)]] ]]
           (0, 0, 0, 1, 2%Q)).
  reflexivity.
Defined.


Lemma optimizer_steps_see_fresh_gradients_witness :
  match @train_iteration Toy.collaborators (Toy.arguments 1) 1 Toy.state with
  | Ok (_, s') => length (grad (netD s')) = 3 ∧ length (grad (netG s')) = 1
  | Raise _ => False
  end.
Proof.
  destruct (@train_iteration Toy.collaborators (Toy.arguments 1) 1 Toy.state)
    as [[[] s']|e] eqn:Hrun.
  - destruct (optimizer_steps_see_fresh_gradients _ _ _ _ Hrun)
      as (loss_real & loss_fake & loss_g & _ & _ & HD & HG & _).
    rewrite HD, HG. split; reflexivity.
  - returned Hrun.
Defined.

Lemma progress_line_values_witness :
  match @train_iteration Toy.collaborators (Toy.arguments 0) 0 Toy.state with
  | Ok (_, s') =>
      ∃ new, trace s' = trace Toy.state ++ new ∧
             length (List.filter is_print new) = 1
  | Raise _ => False
  end.
Proof.
  destruct (@train_iteration Toy.collaborators (Toy.arguments 0) 0 Toy.state)
    as [[[] s']|e] eqn:Hrun.
  - destruct (progress_line_values _ _ _ _ Hrun)
      as (new & real & part & netD3 & fakes & Ht & _ & _ & Hp & _).
    exists new. split; [exact Ht|]. rewrite Hp. reflexivity.
  - returned Hrun.
Defined.

Lemma iteration_draws_witness :
  match @train Toy.collaborators (Toy.arguments 1) Toy.state with
  | Ok (_, s') => batches_drawn s' = 2 ∧ randint_pos (gen s') = 2
  | Raise _ => False
  end.
Proof.
  destruct (@train Toy.collaborators (Toy.arguments 1) Toy.state)
    as [[[] s']|e] eqn:Hrun.
  - destruct (proj2 (@iteration_draws Toy.collaborators) _ _ _ Hrun)
      as (Hb & Hr & _).
    split; [exact Hb | exact Hr].
  - returned Hrun.
Defined.

Lemma final_checkpoint_is_final_state_witness :
  match @train Toy.collaborators (Toy.arguments 1) Toy.state with
  | Ok (_, s') =>
      files s' !! checkpoint_file (Toy.arguments 1) = Some (checkpoint_record s')
  | Raise _ => False
  end.
Proof.
  destruct (@train Toy.collaborators (Toy.arguments 1) Toy.state)
    as [[[] s']|e] eqn:Hrun.
  - apply (final_checkpoint_is_final_state _ _ _ Hrun); reflexivity || discriminate.
  - returned Hrun.
Defined.

Lemma train_writes_one_path_witness :
  match @train Toy.collaborators (Toy.arguments 0) Toy.state with
  | Ok (_, s') => files s' = files Toy.state
  | Raise _ => False
  end.
Proof.
  destruct (@train Toy.collaborators (Toy.arguments 0) Toy.state)
    as [[[] s']|e] eqn:Hrun.
  - apply (train_writes_one_path _ _ _ Hrun). cbn. lia.
  - returned Hrun.
Defined.



Lemma resume_restores_checkpoint_witness :
  ∃ s1 : train_state,
    @load_checkpoint Toy.collaborators "models/toy_model.pth"
      (set_files (<["models/toy_model.pth" := checkpoint_record Toy.state]> ∅)
                 Toy.state)
      = Ok (tt, s1) ∧
    parameters (netG s1) = parameters (netG Toy.state).
Proof.
  destruct (@resume_restores_checkpoint Toy.collaborators "models/toy_model.pth"
              (set_files (<["models/toy_model.pth" := checkpoint_record Toy.state]> ∅)
                         Toy.state)
              Toy.state (0, [[0; 0]%Q]) (0, [[0]%Q]))
    as (s1 & Hrun & HG & _).
  - reflexivity.
  - split; repeat constructor.
  - split; [apply NoDup_singleton | repeat constructor].
  - split; repeat constructor.
  - split; [apply NoDup_singleton | repeat constructor].
  - reflexivity.
  - reflexivity.
  - exists s1. split; [exact Hrun | exact HG].
Defined.



Lemma generated_files_are_numbered_witness :
  match @generate_images Toy.collaborators (Toy.arguments 1) "out"
          Toy.generator Toy.discriminator
          (<["models/toy_model.pth" := checkpoint_record Toy.state]> ∅)
          Toy.random with
  | Returns (calls, _) => NoDup calls.*1
  | Raises _ => False
  end.
Proof.
  destruct (@generate_images Toy.collaborators (Toy.arguments 1) "out"
              Toy.generator Toy.discriminator
              (<["models/toy_model.pth" := checkpoint_record Toy.state]> ∅)
              Toy.random) as [[calls g']|e] eqn:Hrun.
  - destruct (generated_files_are_numbered _ _ _ _ _ _ _ _ Hrun)
      as (net_g & big & rest & _ & _ & _ & _ & _ & Hnd & _).
    exact Hnd.
  - returned Hrun.
Defined.


